(** * The background service worker of the proxy extension

    A shallow embedding of the extension's background script (the
    "Controller" of the specification): its four listeners
    ([onInstalled], [storage.onChanged], [onStartup], [onMessage]) and the
    async function [updateProxyRules], run on an explicit event loop.

    How the JavaScript is rendered:
    - the worker is single threaded; a listener or a callback runs to its
      next suspension point without interruption.  Every suspension point of
      the script (a storage callback, an [await], a [fetch] promise) is a
      [Task] kept in the list [pending]; the environment picks which pending
      task resumes next and, for an engine call or a fetch, how it settled;
    - the platform objects the script talks to are fields of [State]: the
      value stored under [proxyEnabled] in [chrome.storage.sync], whether the
      ruleset [proxy_rules] is enabled, the badge text and colour;
    - everything the script does to the outside is appended to [trace], in
      program order, so that "before", "once" and "twice" are statements
      about that list.

    What is assumed of the platform:
    - a storage call takes effect when it is issued (the storage area serves
      its calls in issue order) and its callback or promise continuation is
      queued; storage calls do not fail;
    - a write raises [storage.onChanged] only when the stored value changes;
    - [updateEnabledRulesets] changes the ruleset when its promise resolves
      and leaves it alone when it rejects;
    - a [fetch] settles: with a response (any status) or with a rejection;
    - the [enabled] field of a [toggleProxy] message is a boolean, as the
      popup sends it. *)

From Stdlib Require Import ZArith String List Lia Bool.
From stdpp Require Import base list strings numbers.
Import ListNotations.

Open Scope string_scope.
Open Scope list_scope.

(** ** Data *)

(** The proxy server the health check polls. *)
Definition PROXY_SERVER : string := "http://localhost:8080".

(** The value held under the key [proxyEnabled]: [None] is JavaScript's
    [undefined] (key absent), [Some b] a stored boolean. *)
Definition Stored := option bool.

(** JavaScript truthiness of such a value, as in [if (enabled)] and
    [enabled ? .. : ..]. *)
Definition truthy (v : Stored) : bool :=
  match v with
  | Some b => b
  | None => false
  end.

(** [v || false]. *)
Definition or_false (v : Stored) : bool :=
  if truthy v then truthy v else false.

Definition same_value (a b : Stored) : bool :=
  match a, b with
  | Some x, Some y => Bool.eqb x y
  | None, None => true
  | _, _ => false
  end.

(** The entry of [changes] for the key [proxyEnabled] in a storage change
    event. *)
Record StorageChange := mkChange {
  oldValue : Stored;
  newValue : Stored }.

(** A message from the popup: [{action, enabled}].  The field [enabled] is
    the boolean of the message protocol; it is read only by the
    [toggleProxy] branch. *)
Record Request := mkRequest {
  action : string;
  enabled : bool }.

Definition getProxyStatus : Request := mkRequest "getProxyStatus" false.
Definition toggleProxy (b : bool) : Request := mkRequest "toggleProxy" b.
Definition checkServerStatus : Request := mkRequest "checkServerStatus" false.

(** The objects passed to [sendResponse]; an absent field is [None]. *)
Inductive Response :=
| ProxyStatusResponse (enabled : bool)
| ToggleResponse (success : bool) (enabled : option bool) (error : option string)
| ServerStatusResponse (online : bool) (status : option Z) (error : option string).

(** How [chrome.declarativeNetRequest.updateEnabledRulesets] settles: the
    promise resolves, or rejects with an error carrying a message. *)
Inductive EngineResult :=
| EngineOk
| EngineError (message : string).

(** How [fetch] settles: a response with an HTTP status, or a rejection
    (network failure). *)
Inductive FetchResult :=
| FetchResponse (status : Z)
| FetchFailure (message : string).

(** What the environment decides when a pending task resumes. *)
Record Env := mkEnv {
  engine : EngineResult;
  net : FetchResult }.

(** [Response.ok] of the Fetch API: the status is in the range 200-299. *)
Definition response_ok (status : Z) : bool :=
  (200 <=? status)%Z && (status <=? 299)%Z.

(** Who called [updateProxyRules], that is, what happens to the promise it
    returns: the storage listener and the startup listener drop it, the
    toggle handler awaits it inside [try]/[catch]. *)
Inductive Caller :=
| FromListener
| FromStartup
| FromToggle (id : nat) (enabled : bool).

(** The suspension points of the script. *)
Inductive Task :=
| GetStatusCallback (id : nat) (result : Stored)
| ToggleSetCallback (id : nat) (enabled : bool)
| StartupGetResumes (result : Stored)
| StorageChanged (changes : option StorageChange) (namespace : string)
| AwaitEngine (enabled : Stored) (caller : Caller)
| AwaitFetch (id : nat).

(** What the script does to the outside, in program order. *)
Inductive Effect :=
| Log (text : string)
| LogError (text : string) (message : string)
| StorageSet (value : bool)
| StorageGet (result : Stored)
| EngineInvoke (enable : bool)
| BadgeText (text : string)
| BadgeColor (color : string)
| Fetch (url : string)
| Received (id : nat) (request : Request)
| Responded (id : nat) (response : Response)
| Unhandled (message : string).

Record State := mkState {
  store : Stored;
  ruleset : bool;
  badge_text : string;
  badge_color : option string;
  pending : list Task;
  next_exchange : nat;
  trace : list Effect }.

(** The worker when its process starts: nothing pending, nothing done yet;
    the stored flag and the engine are whatever the platform kept. *)
Definition boot (persisted : Stored) (engine_on : bool) : State :=
  mkState persisted engine_on "" None [] 0 [].

(** ** Platform operations *)

Definition M := State -> State.

Definition seq (f g : M) : M := fun s => g (f s).
Notation "f >> g" := (seq f g) (at level 61, left associativity).

Definition skip : M := fun s => s.

Definition emit (e : Effect) : M := fun s =>
  mkState (store s) (ruleset s) (badge_text s) (badge_color s) (pending s)
          (next_exchange s) (trace s ++ [e]).

Definition spawn (t : Task) : M := fun s =>
  mkState (store s) (ruleset s) (badge_text s) (badge_color s) (pending s ++ [t])
          (next_exchange s) (trace s).

Definition set_store (v : Stored) : M := fun s =>
  mkState v (ruleset s) (badge_text s) (badge_color s) (pending s)
          (next_exchange s) (trace s).

Definition set_ruleset (b : bool) : M := fun s =>
  mkState (store s) b (badge_text s) (badge_color s) (pending s)
          (next_exchange s) (trace s).

Definition set_pending (l : list Task) : M := fun s =>
  mkState (store s) (ruleset s) (badge_text s) (badge_color s) l
          (next_exchange s) (trace s).

Definition open_exchange : M := fun s =>
  mkState (store s) (ruleset s) (badge_text s) (badge_color s) (pending s)
          (S (next_exchange s)) (trace s).

Definition console_log (text : string) : M := emit (Log text).

Definition console_error (text message : string) : M := emit (LogError text message).

(** [chrome.action.setBadgeText({ text })]. *)
Definition setBadgeText (text : string) : M := fun s =>
  emit (BadgeText text)
    (mkState (store s) (ruleset s) text (badge_color s) (pending s)
             (next_exchange s) (trace s)).

(** [chrome.action.setBadgeBackgroundColor({ color })]. *)
Definition setBadgeBackgroundColor (color : string) : M := fun s =>
  emit (BadgeColor color)
    (mkState (store s) (ruleset s) (badge_text s) (Some color) (pending s)
             (next_exchange s) (trace s)).

(** A write of [proxyEnabled] to [chrome.storage.sync]: the value is stored
    and, when it differs from the one held before, the platform raises a
    change event for the [sync] namespace, delivered later. *)
Definition write_sync (v : Stored) : M := fun s =>
  let old := store s in
  let s' := set_store v s in
  if same_value old v then s'
  else spawn (StorageChanged (Some (mkChange old v)) "sync") s'.

(** [chrome.storage.sync.set({ proxyEnabled: value })]. *)
Definition storage_sync_set (value : bool) : M :=
  emit (StorageSet value) >> write_sync (Some value).

(** [chrome.storage.sync.get('proxyEnabled')]: the read is served in issue
    order, its result handed to the continuation [k], which is queued. *)
Definition storage_sync_get (k : Stored -> Task) : M := fun s =>
  spawn (k (store s)) (emit (StorageGet (store s)) s).

Definition sendResponse (id : nat) (r : Response) : M := emit (Responded id r).

(** ** The script *)

(** [chrome.runtime.onInstalled] listener. *)
Definition onInstalled : M :=
  console_log "PQC Proxy Extension installed" >>
  storage_sync_set false >>
  setBadgeText "".

(** [updateProxyRules(enabled)] up to its [await]: the log line, then the
    call of [updateEnabledRulesets] with [enableRulesetIds] when [enabled] is
    truthy and with [disableRulesetIds] otherwise. *)
Definition updateProxyRules (enabled : Stored) (caller : Caller) : M :=
  console_log ("Updating proxy rules: "
               +:+ (if truthy enabled then "enabling" else "disabling")
               +:+ " proxy") >>
  emit (EngineInvoke (truthy enabled)) >>
  spawn (AwaitEngine enabled caller).

(** The promise of [updateProxyRules] resolved ([return true]): only the
    toggle handler continues, with its success response. *)
Definition resolved (caller : Caller) : M :=
  match caller with
  | FromToggle id enabled => sendResponse id (ToggleResponse true (Some enabled) None)
  | FromListener | FromStartup => skip
  end.

(** The promise of [updateProxyRules] rejected ([throw error]): the toggle
    handler catches, logs and answers; the two other callers attached no
    handler, so the rejection is unhandled. *)
Definition rejected (caller : Caller) (message : string) : M :=
  match caller with
  | FromToggle id _ =>
      console_error "Error updating proxy rules:" message >>
      sendResponse id (ToggleResponse false None (Some message))
  | FromListener | FromStartup => emit (Unhandled message)
  end.

(** [updateProxyRules(enabled)] from its [await] on. *)
Definition updateProxyRules_settled (enabled : Stored) (caller : Caller)
    (r : EngineResult) : M :=
  match r with
  | EngineOk =>
      set_ruleset (truthy enabled) >>
      (if truthy enabled then
         setBadgeText "ON" >>
         setBadgeBackgroundColor "#10B981" >>
         console_log "Proxy enabled - redirecting traffic through PQC proxy"
       else
         setBadgeText "" >>
         console_log "Proxy disabled - using direct connection") >>
      console_log ("Proxy rules updated successfully: "
                   +:+ (if truthy enabled then "enabled" else "disabled")) >>
      resolved caller
  | EngineError message =>
      console_error "Error updating proxy rules:" message >>
      setBadgeText "ERR" >>
      setBadgeBackgroundColor "#EF4444" >>
      rejected caller message
  end.

(** [chrome.storage.onChanged] listener: [changes.proxyEnabled] is truthy
    when the event carries an entry for the key. *)
Definition onChanged (changes : option StorageChange) (namespace : string) : M :=
  if String.eqb namespace "sync" then
    match changes with
    | Some change => updateProxyRules (newValue change) FromListener
    | None => skip
    end
  else skip.

(** [chrome.runtime.onStartup] listener, up to its [await]. *)
Definition onStartup : M :=
  storage_sync_get StartupGetResumes.

(** [chrome.runtime.onMessage] listener.  Each of its three branches
    returns [true], which keeps the exchange open for the response sent
    later; a message with another action falls through all three. *)
Definition onMessage (request : Request) (id : nat) : M :=
  if String.eqb (action request) "getProxyStatus" then
    storage_sync_get (GetStatusCallback id)
  else if String.eqb (action request) "toggleProxy" then
    storage_sync_set (enabled request) >>
    spawn (ToggleSetCallback id (enabled request))
  else if String.eqb (action request) "checkServerStatus" then
    emit (Fetch (PROXY_SERVER +:+ "/pqc-info")) >>
    spawn (AwaitFetch id)
  else skip.

(** The [then]/[catch] pair attached to the fetch promise. *)
Definition fetch_settled (id : nat) (r : FetchResult) : M :=
  match r with
  | FetchResponse status =>
      sendResponse id (ServerStatusResponse (response_ok status) (Some status) None)
  | FetchFailure message =>
      sendResponse id (ServerStatusResponse false None (Some message))
  end.

(** What a pending task does when it resumes. *)
Definition resume (t : Task) (e : Env) : M :=
  match t with
  | GetStatusCallback id result =>
      sendResponse id (ProxyStatusResponse (or_false result))
  | ToggleSetCallback id enabled =>
      updateProxyRules (Some enabled) (FromToggle id enabled)
  | StartupGetResumes result =>
      updateProxyRules (Some (or_false result)) FromStartup
  | StorageChanged changes namespace => onChanged changes namespace
  | AwaitEngine enabled caller => updateProxyRules_settled enabled caller (engine e)
  | AwaitFetch id => fetch_settled id (net e)
  end.

(** ** The event loop *)

(** What can happen next: the platform fires one of the worker's events, a
    writer other than the worker changes the stored flag, or the task at
    position [i] of [pending] resumes. *)
Inductive Action :=
| Installed
| Startup
| Message (request : Request)
| ForeignWrite (value : Stored)
| Settle (i : nat) (e : Env).

Definition step (a : Action) (s : State) : option State :=
  match a with
  | Installed => Some (onInstalled s)
  | Startup => Some (onStartup s)
  | Message request =>
      let id := next_exchange s in
      Some ((open_exchange >> emit (Received id request) >> onMessage request id) s)
  | ForeignWrite v => Some (write_sync v s)
  | Settle i e =>
      match pending s !! i with
      | Some t => Some (resume t e (set_pending (delete i (pending s)) s))
      | None => None
      end
  end.

Fixpoint run (acts : list Action) (s : State) : option State :=
  match acts with
  | [] => Some s
  | a :: rest =>
      match step a s with
      | Some s' => run rest s'
      | None => None
      end
  end.

Definition quiescent (s : State) : Prop := pending s = [].

(** The state a run ends in (the start state if the run is not possible). *)
Definition outcome (acts : list Action) (s : State) : State :=
  match run acts s with
  | Some s' => s'
  | None => s
  end.

(** A run in which the environment only lets pending tasks resume: no new
    platform event, no foreign write. *)
Definition is_settle (a : Action) : bool :=
  match a with
  | Settle _ _ => true
  | _ => false
  end.

(** A run in which every engine call that settles resolves. *)
Definition engine_ok (a : Action) : bool :=
  match a with
  | Settle _ e => match engine e with EngineOk => true | EngineError _ => false end
  | _ => true
  end.

(** The actions that leave the stored flag to the request being served: no
    install event, no foreign write, no further [toggleProxy] message. *)
Definition keeps_store (a : Action) : bool :=
  match a with
  | Installed | ForeignWrite _ => false
  | Message request => negb (String.eqb (action request) "toggleProxy")
  | Startup | Settle _ _ => true
  end.

(** States the worker can be in: what some run reaches from a process
    start. *)
Definition reachable (s : State) : Prop :=
  exists persisted engine_on acts, run acts (boot persisted engine_on) = Some s.

(** ** Reading the trace *)

(** The responses sent on exchange [id], oldest first. *)
Fixpoint responses (id : nat) (tr : list Effect) : list Response :=
  match tr with
  | [] => []
  | Responded id' r :: rest =>
      if Nat.eqb id id' then r :: responses id rest else responses id rest
  | _ :: rest => responses id rest
  end.

(** The requests received on exchange [id]. *)
Fixpoint requests (id : nat) (tr : list Effect) : list Request :=
  match tr with
  | [] => []
  | Received id' r :: rest =>
      if Nat.eqb id id' then r :: requests id rest else requests id rest
  | _ :: rest => requests id rest
  end.

(** The calls of [updateEnabledRulesets], oldest first ([true]: enable). *)
Fixpoint engine_calls (tr : list Effect) : list bool :=
  match tr with
  | [] => []
  | EngineInvoke b :: rest => b :: engine_calls rest
  | _ :: rest => engine_calls rest
  end.

(** The texts written to the badge, oldest first. *)
Fixpoint badge_writes (tr : list Effect) : list string :=
  match tr with
  | [] => []
  | BadgeText t :: rest => t :: badge_writes rest
  | _ :: rest => badge_writes rest
  end.

(** The rejections nobody handled. *)
Fixpoint unhandled (tr : list Effect) : list string :=
  match tr with
  | [] => []
  | Unhandled m :: rest => m :: unhandled rest
  | _ :: rest => unhandled rest
  end.

(** The three actions the message listener has a branch for. *)
Definition known (request : Request) : bool :=
  String.eqb (action request) "getProxyStatus"
  || String.eqb (action request) "toggleProxy"
  || String.eqb (action request) "checkServerStatus".

(** ** What a resumed task still owes *)

(** The responses a pending task will still send on exchange [id]. *)
Definition owes (id : nat) (t : Task) : nat :=
  match t with
  | GetStatusCallback id' _ | ToggleSetCallback id' _ | AwaitFetch id'
  | AwaitEngine _ (FromToggle id' _) => if Nat.eqb id id' then 1 else 0
  | _ => 0
  end.

(** The engine calls a pending task will still make. *)
Definition calls_due (t : Task) : nat :=
  match t with
  | ToggleSetCallback _ _ | StartupGetResumes _ => 1
  | StorageChanged (Some _) namespace => if String.eqb namespace "sync" then 1 else 0
  | _ => 0
  end.

(** The badge texts a pending task will still cause to be written. *)
Definition badge_due (t : Task) : nat :=
  match t with
  | AwaitEngine _ _ => 1
  | t => calls_due t
  end.

(** An upper bound on the resumptions a pending task stands for. *)
Definition weight (t : Task) : nat :=
  match t with
  | ToggleSetCallback _ _ | StartupGetResumes _ | StorageChanged _ _ => 2
  | _ => 1
  end.

(** Let every pending task resume, oldest first, all with the same
    environment answer [e]. *)
Fixpoint drain_with (e : Env) (fuel : nat) (s : State) : State :=
  match fuel with
  | O => s
  | S fuel' =>
      match step (Settle 0 e) s with
      | Some s' => drain_with e fuel' s'
      | None => s
      end
  end.

Definition drain (e : Env) (s : State) : State :=
  drain_with e (sum_list_with weight (pending s)) s.

(** Storage operations complete in the order they were issued: a storage
    callback resumes only when no older storage callback is still pending. *)
Definition storage_completion (t : Task) : bool :=
  match t with
  | GetStatusCallback _ _ | ToggleSetCallback _ _ | StartupGetResumes _ => true
  | _ => false
  end.

Definition in_order (a : Action) (s : State) : bool :=
  match a with
  | Settle i _ =>
      match pending s !! i with
      | Some t =>
          if storage_completion t
          then forallb (fun t' => negb (storage_completion t')) (take i (pending s))
          else true
      | None => true
      end
  | _ => true
  end.

Fixpoint run_in_order (acts : list Action) (s : State) : option State :=
  match acts with
  | [] => Some s
  | a :: rest =>
      if in_order a s then
        match step a s with
        | Some s' => run_in_order rest s'
        | None => None
        end
      else None
  end.

(** The badge the script shows for a stored flag: ["ON"] on green for
    [true], the empty text for [false]. *)
Definition badge_shows (b : bool) (s : State) : Prop :=
  if b then badge_text s = "ON" /\ badge_color s = Some "#10B981"
  else badge_text s = "".

(** ** Vocabulary of the proofs *)

(** Two answers of the environment used in the examples: every call
    succeeds; the engine rejects with [PermissionDenied] and the network is
    down. *)
Definition all_ok : Env := mkEnv EngineOk (FetchResponse 200).

Definition permission_denied : Env :=
  mkEnv (EngineError "PermissionDenied") (FetchFailure "Failed to fetch").

(** The footprint of a resumed task: what it appends to the trace and to
    the pending list, read off a run of [resume] on an empty state. *)
Definition blank : State := boot None false.

Definition effects_of (t : Task) (e : Env) : list Effect := trace (resume t e blank).

Definition tasks_of (t : Task) (e : Env) : list Task := pending (resume t e blank).

(** Counting effects: responses on exchange [id], engine calls, badge
    texts. *)
Definition is_response (id : nat) (ef : Effect) : nat :=
  match ef with
  | Responded id' _ => if Nat.eqb id id' then 1 else 0
  | _ => 0
  end.

Definition is_engine_call (ef : Effect) : nat :=
  match ef with
  | EngineInvoke _ => 1
  | _ => 0
  end.

Definition is_badge_write (ef : Effect) : nat :=
  match ef with
  | BadgeText _ => 1
  | _ => 0
  end.

Definition is_known (request : Request) : nat := if known request then 1 else 0.

(** Exchange accounting: identifiers are handed out in order, one request
    per exchange; on each exchange the responses sent plus the responses
    still owed by pending tasks number one when the request had a known
    action, and none otherwise. *)
Record exchanges_ok (s : State) : Prop := {
  fresh_ids : forall id, next_exchange s <= id -> requests id (trace s) = [];
  one_request : forall id, length (requests id (trace s)) <= 1;
  balance : forall id,
    length (responses id (trace s)) + sum_list_with (owes id) (pending s)
    = sum_list_with is_known (requests id (trace s)) }.

(** The tasks a [toggleProxy] request with value [b] on exchange [id] can
    leave pending when it arrived with nothing else pending: its own storage
    callback, the change event of its write, and the two engine calls these
    make. *)
Definition toggle_task (id : nat) (b : bool) (t : Task) : Prop :=
  match t with
  | ToggleSetCallback id' b' => id' = id /\ b' = b
  | StorageChanged (Some change) _ => newValue change = Some b
  | AwaitEngine v FromListener => v = Some b
  | AwaitEngine v (FromToggle id' b') => v = Some b /\ id' = id /\ b' = b
  | _ => False
  end.

(** The worker is serving that request and nothing else. *)
Definition serving (id : nat) (b : bool) (s : State) : Prop :=
  store s = Some b /\ Forall (toggle_task id b) (pending s).

(** A success response on the exchange is only ever sent after the engine
    took the value [b]. *)
Definition applied_if_succeeded (id : nat) (b : bool) (s : State) : Prop :=
  In (ToggleResponse true (Some b) None) (responses id (trace s)) -> ruleset s = b.

(** When the engine resolves every call: whatever was answered on the
    exchange is the success response, and from then on the engine and the
    badge show [b]; the badge colour is never touched when [b] is [false]. *)
Definition settled_well (id : nat) (b : bool) (color0 : option string)
    (s : State) : Prop :=
  (b = false -> badge_color s = color0)
  /\ forall r, In r (responses id (trace s)) ->
       r = ToggleResponse true (Some b) None /\ badge_shows b s /\ ruleset s = b.

(** Whether the trace has every status response [{enabled: true}] preceded
    by a call enabling the ruleset; [seen] tells whether such a call was made
    before the trace starts. *)
Fixpoint guarded (seen : bool) (tr : list Effect) : bool :=
  match tr with
  | [] => true
  | EngineInvoke true :: rest => guarded true rest
  | Responded _ (ProxyStatusResponse true) :: rest => seen && guarded seen rest
  | _ :: rest => guarded seen rest
  end.

Definition enable_called (tr : list Effect) : bool :=
  existsb (fun b => b) (engine_calls tr).

(** What holds from the startup event on, when the flag was stored as
    [true]: the trace is guarded, and either the enabling call has been made
    or the continuation of the startup read is the oldest pending task. *)
Definition reconciling (s : State) : Prop :=
  guarded false (trace s) = true
  /\ (enable_called (trace s) = true
      \/ exists rest, pending s = StartupGetResumes (Some true) :: rest).

(** ** Vocabulary of the further properties *)

(** The shape the script gives a response, by the action of the request it
    answers: [{enabled}] for [getProxyStatus]; for [toggleProxy] either
    [{success: true, enabled}] echoing the requested value or [{success:
    false, error}]; for [checkServerStatus] either [{online, status}] with
    [online] the [ok] of that status or [{online: false, error}]. *)
Definition conforms (request : Request) (r : Response) : bool :=
  match r with
  | ProxyStatusResponse _ => String.eqb (action request) "getProxyStatus"
  | ToggleResponse true (Some b) None =>
      String.eqb (action request) "toggleProxy" && Bool.eqb b (enabled request)
  | ToggleResponse false None (Some _) => String.eqb (action request) "toggleProxy"
  | ToggleResponse _ _ _ => false
  | ServerStatusResponse online (Some status) None =>
      String.eqb (action request) "checkServerStatus"
      && Bool.eqb online (response_ok status)
  | ServerStatusResponse false None (Some _) =>
      String.eqb (action request) "checkServerStatus"
  | ServerStatusResponse _ _ _ => false
  end.

(** A pending task that will answer on an exchange belongs to the branch of
    the request's action (and, for a toggle, carries the requested value). *)
Definition serves (request : Request) (t : Task) : bool :=
  match t with
  | GetStatusCallback _ _ => String.eqb (action request) "getProxyStatus"
  | ToggleSetCallback _ b | AwaitEngine _ (FromToggle _ b) =>
      String.eqb (action request) "toggleProxy" && Bool.eqb b (enabled request)
  | AwaitFetch _ => String.eqb (action request) "checkServerStatus"
  | _ => true
  end.

Definition protocol_ok (s : State) : Prop :=
  forall id request,
    requests id (trace s) = [request] ->
    Forall (fun t => owes id t = 1 -> serves request t = true) (pending s)
    /\ Forall (fun r => conforms request r = true) (responses id (trace s)).

(** While a [getProxyStatus] request on exchange [id] that read the value
    [v] is being served: only its callback owes a response on [id], and any
    response sent on [id] reports [v || false]. *)
Definition reporting (id : nat) (v : Stored) (s : State) : Prop :=
  id < next_exchange s
  /\ Forall (fun t => owes id t = 1 -> t = GetStatusCallback id v) (pending s)
  /\ Forall (fun r => r = ProxyStatusResponse (or_false v)) (responses id (trace s)).

(** The badge states the script can produce: the empty text; ["ON"], always
    on green and with the ruleset enabled; ["ERR"], always on red. *)
Definition badge_ok (s : State) : Prop :=
  badge_text s = ""
  \/ (badge_text s = "ON" /\ badge_color s = Some "#10B981" /\ ruleset s = true)
  \/ (badge_text s = "ERR" /\ badge_color s = Some "#EF4444").

(** The tasks of the two queries, [getProxyStatus] and [checkServerStatus]. *)
Definition query_task (t : Task) : bool :=
  match t with
  | GetStatusCallback _ _ | AwaitFetch _ => true
  | _ => false
  end.

(** ** The popup component

    The React component [ProxyToggle] of the popup: its four pieces of
    state and its handlers.  A handler runs to its end on the state it finds
    and leaves the calls it made to its host (storage read, message to the
    worker, fetch, timer); what comes back later (the storage result, the
    worker's response, the timeout) arrives as a further handler, which
    holds the value [newState] it captured at the click. *)
Module Popup.

(** The requests the popup sends, named before the component's own
    functions of the same names. *)
Definition toggle_request (b : bool) : Request := toggleProxy b.
Definition status_request : Request := checkServerStatus.

(** What a console line was given besides its label. *)
Inductive Shown :=
| ShownNothing
| ShownBool (b : bool)
| ShownResponse (response : option Response)
| ShownError (message : string).

Inductive Line :=
| Info (label : string) (arg : Shown)
| Problem (label : string) (arg : Shown).

(** The component's state: the four [useState] cells, and the console. *)
Record View := mkView {
  isEnabled : bool;
  isLoading : bool;
  serverStatus : string;
  debugInfo : string;
  console : list Line }.

(** The state at first render. *)
Definition initial : View := mkView false true "unknown" "" [].

(** What the component asks of its host. *)
Inductive Call :=
| StorageRead
| SendMessage (request : Request)
| FetchUrl (url : string)
| SetTimeout (ms : Z)
| ClearTimeout.

(** Whether [chrome.storage] and [chrome.runtime] exist where the component
    runs (they do not on a plain development page). *)
Record Host := mkHost {
  has_storage : bool;
  has_runtime : bool }.

Definition Act := View * list Call -> View * list Call.

Definition andThen (f g : Act) : Act := fun p => g (f p).
Notation "f >>> g" := (andThen f g) (at level 61, left associativity).

Definition setIsEnabled (b : bool) : Act := fun p =>
  let v := fst p in
  (mkView b (isLoading v) (serverStatus v) (debugInfo v) (console v), snd p).

Definition setIsLoading (b : bool) : Act := fun p =>
  let v := fst p in
  (mkView (isEnabled v) b (serverStatus v) (debugInfo v) (console v), snd p).

Definition setServerStatus (status : string) : Act := fun p =>
  let v := fst p in
  (mkView (isEnabled v) (isLoading v) status (debugInfo v) (console v), snd p).

Definition setDebugInfo (text : string) : Act := fun p =>
  let v := fst p in
  (mkView (isEnabled v) (isLoading v) (serverStatus v) text (console v), snd p).

Definition say (line : Line) : Act := fun p =>
  let v := fst p in
  (mkView (isEnabled v) (isLoading v) (serverStatus v) (debugInfo v)
          (console v ++ [line]), snd p).

Definition call (c : Call) : Act := fun p => (fst p, snd p ++ [c]).

(** A boolean inside a template literal. *)
Definition show_bool (b : bool) : string := if b then "true" else "false".

(** Reading fields off a response object; a field it does not have is
    [undefined], which is falsy. *)
Definition success_of (r : Response) : bool :=
  match r with
  | ToggleResponse success _ _ => success
  | _ => false
  end.

Definition online_of (r : Response) : bool :=
  match r with
  | ServerStatusResponse online _ _ => online
  | _ => false
  end.

Definition error_of (r : Response) : option string :=
  match r with
  | ToggleResponse _ _ error | ServerStatusResponse _ _ error => error
  | ProxyStatusResponse _ => None
  end.

(** [loadProxyState], up to its [await] (or to its end, without
    [chrome.storage]). *)
Definition loadProxyState (host : Host) : Act :=
  if has_storage host then
    setDebugInfo "Loading proxy state from Chrome storage..." >>>
    call StorageRead
  else
    setDebugInfo "Chrome storage not available, using fallback" >>>
    setIsEnabled false >>>
    setIsLoading false.

(** [loadProxyState] once the storage read resolved. *)
Definition loadProxyState_resolved (result : Stored) : Act :=
  setIsEnabled (or_false result) >>>
  setDebugInfo ("Loaded proxy state: " +:+ show_bool (or_false result)) >>>
  setIsLoading false.

(** [loadProxyState] when the storage read rejected. *)
Definition loadProxyState_rejected (message : string) : Act :=
  say (Problem "Error loading proxy state:" (ShownError message)) >>>
  setDebugInfo ("Error loading state: " +:+ message) >>>
  setIsLoading false.

(** [checkServerStatus]: through the worker, or by a fetch of its own
    without [chrome.runtime]. *)
Definition checkServerStatus (host : Host) : Act :=
  if has_runtime host then call (SendMessage status_request)
  else call (FetchUrl "http://localhost:8080/pqc-info").

(** The callback given to [sendMessage] by [checkServerStatus]. *)
Definition checkServerStatus_answered (response : option Response) : Act :=
  match response with
  | Some r => if online_of r then setServerStatus "online"
              else setServerStatus "offline"
  | None => setServerStatus "offline"
  end.

(** [checkServerStatus] once its own fetch settled: [response.ok] decides;
    a rejection is caught. *)
Definition checkServerStatus_fetched (r : FetchResult) : Act :=
  match r with
  | FetchResponse status =>
      if response_ok status then setServerStatus "online"
      else setServerStatus "offline"
  | FetchFailure _ => setServerStatus "offline"
  end.

(** The effect run once, at first render. *)
Definition mount (host : Host) : Act :=
  setDebugInfo "Component loaded, checking initial state..." >>>
  loadProxyState host >>>
  checkServerStatus host.

(** [toggleProxy], the click handler, up to the calls it leaves. *)
Definition toggleProxy (host : Host) : Act := fun p =>
  let current := isEnabled (fst p) in
  let newState := negb current in
  (say (Info "Toggle proxy clicked, current state:" (ShownBool current)) >>>
   setDebugInfo ("Toggling proxy from " +:+ show_bool current +:+ " to "
                 +:+ show_bool (negb current) +:+ "...") >>>
   setIsLoading true >>>
   (if has_runtime host then
      say (Info "Using Chrome runtime to toggle proxy to:" (ShownBool newState)) >>>
      setDebugInfo "Sending message to background script..." >>>
      call (SetTimeout 5000) >>>
      call (SendMessage (toggle_request newState))
    else
      say (Info "Chrome runtime not available, using fallback" ShownNothing) >>>
      setDebugInfo "Chrome runtime not available, using fallback" >>>
      setIsEnabled newState >>>
      setIsLoading false)) p.

(** The timer set by [toggleProxy] fired. *)
Definition toggleProxy_timeout : Act :=
  say (Problem "Background script response timeout" ShownNothing) >>>
  setDebugInfo "Timeout waiting for background script response" >>>
  setIsLoading false.

(** The text shown for a toggle that did not succeed:
    [response ? response.error || 'Unknown error' : 'No response']. *)
Definition failure_text (response : option Response) : string :=
  match response with
  | Some r =>
      match error_of r with
      | Some message => if String.eqb message "" then "Unknown error" else message
      | None => "Unknown error"
      end
  | None => "No response"
  end.

(** [response && response.success]. *)
Definition succeeded (response : option Response) : bool :=
  match response with
  | Some r => success_of r
  | None => false
  end.

(** The callback given to [sendMessage] by [toggleProxy], with the
    [newState] of its click; [lastError] is [chrome.runtime.lastError]. *)
Definition toggleProxy_answered (newState : bool) (lastError : option string)
    (response : option Response) : Act :=
  call ClearTimeout >>>
  say (Info "Response from background script:" (ShownResponse response)) >>>
  match lastError with
  | Some message =>
      say (Problem "Chrome runtime error:" (ShownError message)) >>>
      setDebugInfo ("Chrome runtime error: " +:+ message) >>>
      setIsLoading false
  | None =>
      (if succeeded response then
         setIsEnabled newState >>>
         setDebugInfo ("Proxy successfully "
                       +:+ (if newState then "enabled" else "disabled")) >>>
         say (Info "Proxy toggled successfully to:" (ShownBool newState))
       else
         say (Problem "Failed to toggle proxy:" (ShownResponse response)) >>>
         setDebugInfo ("Failed to toggle proxy: " +:+ failure_text response)) >>>
      setIsLoading false
  end.

(** The [catch] of [toggleProxy]. *)
Definition toggleProxy_caught (newState : bool) (message : string) : Act :=
  say (Problem "Error toggling proxy:" (ShownError message)) >>>
  setDebugInfo ("Error: " +:+ message) >>>
  setIsEnabled (negb newState) >>>
  setIsLoading false.

Definition getStatusColor (v : View) : string :=
  if String.eqb (serverStatus v) "online" then "text-green-600"
  else if String.eqb (serverStatus v) "offline" then "text-red-600"
  else "text-gray-400".

Definition getStatusText (v : View) : string :=
  if String.eqb (serverStatus v) "online" then "Server Online"
  else if String.eqb (serverStatus v) "offline" then "Server Offline"
  else "Checking...".

(** The [disabled] attribute of the checkbox and of the button. *)
Definition toggle_disabled (v : View) : bool :=
  isLoading v || String.eqb (serverStatus v) "offline".

(** Whether the answer to a toggle makes the component adopt [newState]. *)
Definition adopted (lastError : option string) (response : option Response) : bool :=
  match lastError with
  | Some _ => false
  | None => succeeded response
  end.

End Popup.

(** * Properties *)

(** ** The footprint of a resumed task

    A resumed task never reads the state: it appends to the trace and to
    the pending list, and may set the engine and the badge. *)

Ltac open_states :=
  unfold quiescent in *;
  repeat match goal with
         | s : State |- _ => destruct s
         end;
  cbn [store ruleset badge_text badge_color pending next_exchange trace] in *.

Ltac script_step :=
  cbv beta iota zeta delta
    [resume onChanged updateProxyRules_settled updateProxyRules
     fetch_settled resolved rejected onMessage onStartup onInstalled
     storage_sync_get storage_sync_set write_sync sendResponse
     setBadgeBackgroundColor setBadgeText console_error console_log
     open_exchange set_pending set_ruleset set_store spawn emit skip seq
     toggleProxy getProxyStatus checkServerStatus PROXY_SERVER
     store ruleset badge_text badge_color pending next_exchange trace] in *;
  cbn [action enabled engine net truthy or_false newValue oldValue
       String.eqb Ascii.eqb Bool.eqb
       store ruleset badge_text badge_color pending next_exchange trace] in *.

Ltac use_sync :=
  repeat match goal with
         | H : String.eqb _ "sync" = _ |- _ => rewrite H
         end.

Ltac script :=
  open_states; script_step;
  try match goal with
      | |- context [String.eqb ?ns "sync"] =>
          is_var ns; destruct (String.eqb ns "sync") eqn:?; script_step
      end.

Ltac footprint := unfold effects_of, tasks_of, blank, boot; script.

Ltac task_cases t e :=
  destruct t as [? ? | ? ? | ? | [?|] ns | [[|]|] [| | ? ?] | ?];
  destruct e as [[|?] [?|?]].

Lemma resume_trace t e s :
  trace (resume t e s) = trace s ++ effects_of t e.
Proof.
  unfold effects_of, blank, boot.
  task_cases t e; script; cbn; rewrite <- ?app_assoc; cbn;
    try rewrite app_nil_r; reflexivity.
Qed.

Lemma resume_pending t e s :
  pending (resume t e s) = pending s ++ tasks_of t e.
Proof.
  unfold tasks_of, blank, boot.
  task_cases t e; script; cbn; rewrite <- ?app_assoc; cbn;
    try rewrite app_nil_r; reflexivity.
Qed.

Lemma resume_store t e s : store (resume t e s) = store s.
Proof. task_cases t e; script; cbn; reflexivity. Qed.

Lemma resume_next_exchange t e s : next_exchange (resume t e s) = next_exchange s.
Proof. task_cases t e; script; cbn; reflexivity. Qed.

Lemma settle_inv i e s s' :
  step (Settle i e) s = Some s' ->
  exists t, pending s !! i = Some t
    /\ s' = resume t e (set_pending (delete i (pending s)) s).
Proof.
  cbn. destruct (pending s !! i) as [t|]; [|discriminate].
  intros [= <-]. eauto.
Qed.

Lemma sum_delete (f : Task -> nat) (l : list Task) i t :
  l !! i = Some t -> sum_list_with f l = f t + sum_list_with f (delete i l).
Proof.
  intros H. rewrite (delete_Permutation l i t H) at 1. reflexivity.
Qed.

(** ** Conservation

    For a way [count] of counting effects and the matching number [due] of
    such effects a pending task still stands for: while only pending tasks
    resume, what has been done plus what is due does not change. *)
Section Conservation.
Variable count : Effect -> nat.
Variable due : Task -> nat.
Hypothesis resume_balanced : forall t e,
  sum_list_with count (effects_of t e) + sum_list_with due (tasks_of t e) = due t.

Lemma settle_conserves i e s s' :
  step (Settle i e) s = Some s' ->
  sum_list_with count (trace s') + sum_list_with due (pending s')
  = sum_list_with count (trace s) + sum_list_with due (pending s).
Proof.
  intros (t & Ht & ->)%settle_inv.
  rewrite resume_trace, resume_pending. cbn.
  rewrite !sum_list_with_app, (sum_delete due _ _ _ Ht).
  pose proof (resume_balanced t e). lia.
Qed.

Lemma settles_conserve acts : forall s s',
  forallb is_settle acts = true ->
  run acts s = Some s' ->
  sum_list_with count (trace s') + sum_list_with due (pending s')
  = sum_list_with count (trace s) + sum_list_with due (pending s).
Proof.
  induction acts as [|a acts IH]; cbn; intros s s' Hs Hrun.
  - congruence.
  - apply andb_prop in Hs as [Ha Hs].
    destruct a; try discriminate.
    destruct (step (Settle i e) s) as [s1|] eqn:E; [|discriminate].
    rewrite (IH _ _ Hs Hrun). eapply settle_conserves; eauto.
Qed.
End Conservation.

Lemma responses_app id a b : responses id (a ++ b) = responses id a ++ responses id b.
Proof.
  induction a as [|[] a IH]; cbn; auto.
  destruct (Nat.eqb id id0); cbn; congruence.
Qed.

Lemma requests_app id a b : requests id (a ++ b) = requests id a ++ requests id b.
Proof.
  induction a as [|[] a IH]; cbn; auto.
  destruct (Nat.eqb id id0); cbn; congruence.
Qed.

Lemma engine_calls_app a b : engine_calls (a ++ b) = engine_calls a ++ engine_calls b.
Proof. induction a as [|[] a IH]; cbn; congruence. Qed.

Lemma badge_writes_app a b : badge_writes (a ++ b) = badge_writes a ++ badge_writes b.
Proof. induction a as [|[] a IH]; cbn; congruence. Qed.

Lemma unhandled_app a b : unhandled (a ++ b) = unhandled a ++ unhandled b.
Proof. induction a as [|[] a IH]; cbn; congruence. Qed.

Lemma length_responses id tr :
  length (responses id tr) = sum_list_with (is_response id) tr.
Proof.
  induction tr as [|[] tr IH]; cbn; auto.
  destruct (Nat.eqb id id0); cbn; auto.
Qed.

Lemma length_engine_calls tr :
  length (engine_calls tr) = sum_list_with is_engine_call tr.
Proof. induction tr as [|[] tr IH]; cbn; auto. Qed.

Lemma length_badge_writes tr :
  length (badge_writes tr) = sum_list_with is_badge_write tr.
Proof. induction tr as [|[] tr IH]; cbn; auto. Qed.

Lemma responses_balanced id t e :
  sum_list_with (is_response id) (effects_of t e)
  + sum_list_with (owes id) (tasks_of t e) = owes id t.
Proof.
  task_cases t e; footprint; cbn; try reflexivity;
    destruct (Nat.eqb id _); reflexivity.
Qed.

Lemma engine_calls_balanced t e :
  sum_list_with is_engine_call (effects_of t e)
  + sum_list_with calls_due (tasks_of t e) = calls_due t.
Proof. task_cases t e; footprint; cbn; use_sync; reflexivity. Qed.

Lemma badge_writes_balanced t e :
  sum_list_with is_badge_write (effects_of t e)
  + sum_list_with badge_due (tasks_of t e) = badge_due t.
Proof. task_cases t e; footprint; cbn; use_sync; reflexivity. Qed.

(** ** Quiescence is always within reach *)

Lemma resume_lighter t e : sum_list_with weight (tasks_of t e) < weight t.
Proof. task_cases t e; footprint; cbn; lia. Qed.

Lemma settle_lighter i e s s' :
  step (Settle i e) s = Some s' ->
  sum_list_with weight (pending s') < sum_list_with weight (pending s).
Proof.
  intros (t & Ht & ->)%settle_inv.
  rewrite resume_pending. cbn.
  rewrite sum_list_with_app, (sum_delete weight _ _ _ Ht).
  pose proof (resume_lighter t e). lia.
Qed.

Lemma weight_pos t : 0 < weight t.
Proof. destruct t; cbn; lia. Qed.

Lemma drain_with_quiescent e fuel : forall s,
  sum_list_with weight (pending s) <= fuel ->
  quiescent (drain_with e fuel s).
Proof.
  unfold quiescent.
  induction fuel as [|fuel IH]; intros s Hw; cbn [drain_with].
  - destruct (pending s) as [|t l]; [reflexivity|].
    cbn in Hw. pose proof (weight_pos t). lia.
  - destruct (step (Settle 0 e) s) as [s'|] eqn:E.
    + apply IH. apply settle_lighter in E. lia.
    + cbn in E. destruct (pending s) as [|t l]; [reflexivity|discriminate].
Qed.

Lemma drain_with_run e fuel : forall s,
  exists acts, forallb is_settle acts = true
    /\ run acts s = Some (drain_with e fuel s).
Proof.
  induction fuel as [|fuel IH]; intros s; cbn [drain_with].
  - exists []. auto.
  - destruct (step (Settle 0 e) s) as [s'|] eqn:E.
    + destruct (IH s') as (acts & H1 & H2).
      exists (Settle 0 e :: acts). cbn [forallb is_settle run].
      rewrite E, H1, H2. auto.
    + exists []. auto.
Qed.

Lemma drain_quiescent e s : quiescent (drain e s).
Proof. apply drain_with_quiescent. reflexivity. Qed.

(** ** Reachable states *)

Lemma run_app acts1 : forall acts2 s,
  run (acts1 ++ acts2) s =
  match run acts1 s with
  | Some s' => run acts2 s'
  | None => None
  end.
Proof.
  induction acts1 as [|a acts1 IH]; cbn; intros acts2 s; [reflexivity|].
  destruct (step a s); auto.
Qed.

Lemma reachable_boot persisted engine_on : reachable (boot persisted engine_on).
Proof. exists persisted, engine_on, []. reflexivity. Qed.

Lemma reachable_run acts s s' :
  reachable s -> run acts s = Some s' -> reachable s'.
Proof.
  intros (p & r & acts0 & H0) H.
  exists p, r, (acts0 ++ acts). rewrite run_app, H0. exact H.
Qed.

Lemma run_invariant (P : State -> Prop) :
  (forall a s s', P s -> step a s = Some s' -> P s') ->
  forall acts s s', P s -> run acts s = Some s' -> P s'.
Proof.
  intros Hstep. induction acts as [|a acts IH]; cbn; intros s s' Hs Hrun.
  - congruence.
  - destruct (step a s) as [s1|] eqn:E; [|discriminate]. eauto.
Qed.

Lemma reachable_invariant (P : State -> Prop) :
  (forall persisted engine_on, P (boot persisted engine_on)) ->
  (forall a s s', P s -> step a s = Some s' -> P s') ->
  forall s, reachable s -> P s.
Proof.
  intros Hboot Hstep s (p & r & acts & H).
  eapply run_invariant; eauto.
Qed.

(** ** Exchange accounting *)

Lemma requests_resume id t e : requests id (effects_of t e) = [].
Proof. task_cases t e; footprint; reflexivity. Qed.

Ltac trace_norm :=
  rewrite ?requests_app, ?responses_app, ?engine_calls_app, ?badge_writes_app,
    ?unhandled_app, ?sum_list_with_app, ?length_app;
  cbn [requests responses engine_calls badge_writes unhandled sum_list_with
       length owes calls_due badge_due app];
  rewrite ?app_nil_r, ?Nat.add_0_r.

Lemma boot_exchanges_ok persisted engine_on : exchanges_ok (boot persisted engine_on).
Proof. split; cbn; intros; auto. Qed.

Ltac case_same :=
  try match goal with
      | |- context [same_value ?a ?b] => destruct (same_value a b) eqn:?
      end.

Lemma step_exchanges_ok a s s' :
  exchanges_ok s -> step a s = Some s' -> exchanges_ok s'.
Proof.
  intros [F O B] H. destruct a as [| |request|v|i e].
  - injection H as <-. script. case_same; script_step; split; cbn; intros id;
      trace_norm; auto; specialize (B id); lia.
  - injection H as <-. script. split; cbn; intros id; trace_norm; auto;
      specialize (B id); lia.
  - injection H as <-. unfold known, is_known in *. script.
    destruct (String.eqb (action request) "getProxyStatus") eqn:E1;
      [|destruct (String.eqb (action request) "toggleProxy") eqn:E2;
        [|destruct (String.eqb (action request) "checkServerStatus") eqn:E3]];
      script_step; case_same; script_step;
      (split; cbn; intros id; [intros Hle| |]; trace_norm;
       unfold is_known, known; rewrite ?E1, ?E2, ?E3; cbn;
       pose proof (B id) as Bid; pose proof (O id) as Oid;
       destruct (Nat.eqb_spec id next_exchange0) as [->|Hne];
       try (rewrite (F next_exchange0) in * by lia);
       cbn in *; trace_norm;
       unfold is_known, known; rewrite ?E1, ?E2, ?E3; cbn;
       solve [ auto | lia | apply F; lia ]).
  - injection H as <-. script.
    case_same; script_step; split; cbn; intros id;
      trace_norm; auto; specialize (B id); lia.
  - apply settle_inv in H as Hs. destruct Hs as (t & Ht & ->).
    split; intros id.
    + rewrite resume_next_exchange, resume_trace. cbn [next_exchange trace set_pending].
      rewrite requests_app, requests_resume, app_nil_r. apply F.
    + rewrite resume_trace. cbn [trace set_pending].
      rewrite requests_app, requests_resume, app_nil_r. apply O.
    + rewrite !length_responses.
      rewrite (settle_conserves _ _ (responses_balanced id) _ _ _ _ H).
      rewrite <- length_responses.
      rewrite resume_trace. cbn [trace set_pending].
      rewrite requests_app, requests_resume, app_nil_r. apply B.
Qed.

Lemma reachable_exchanges_ok s : reachable s -> exchanges_ok s.
Proof.
  apply reachable_invariant; eauto using boot_exchanges_ok, step_exchanges_ok.
Qed.

(** ** One response per exchange *)

Lemma received_in_requests id request tr :
  In (Received id request) tr -> In request (requests id tr).
Proof.
  induction tr as [|ef tr IH]; cbn; [tauto|].
  intros [->|H].
  - rewrite Nat.eqb_refl. now left.
  - destruct ef; auto. destruct (Nat.eqb id id0); cbn; auto.
Qed.

Lemma received_is_the_request id request s :
  reachable s -> In (Received id request) (trace s) ->
  requests id (trace s) = [request].
Proof.
  intros Hs%reachable_exchanges_ok Hin%received_in_requests.
  pose proof (one_request s Hs id) as Hlen.
  destruct (requests id (trace s)) as [|r [|r' l]]; cbn in *; try lia; try tauto.
  destruct Hin as [->|[]]. reflexivity.
Qed.

Lemma requests_settles acts : forall id s s',
  forallb is_settle acts = true -> run acts s = Some s' ->
  requests id (trace s') = requests id (trace s).
Proof.
  induction acts as [|a acts IH]; cbn; intros id s s' Hs Hrun.
  - congruence.
  - apply andb_prop in Hs as [Ha Hs]. destruct a; try discriminate.
    destruct (step (Settle i e) s) as [s1|] eqn:E; [|discriminate].
    rewrite (IH id _ _ Hs Hrun).
    apply settle_inv in E as (t & _ & ->).
    rewrite resume_trace, requests_app, requests_resume, app_nil_r. reflexivity.
Qed.

Lemma quiescent_owes id s : quiescent s -> sum_list_with (owes id) (pending s) = 0.
Proof. unfold quiescent. intros ->. reflexivity. Qed.

(** C7, as the script has it: a request with one of the three known actions
    never has more than one response on its exchange and has exactly one
    once nothing is pending, which the pending tasks resuming always bring
    about; a request with any other action is never answered. *)
Theorem one_response_per_known_request s id request :
  reachable s ->
  In (Received id request) (trace s) ->
  length (responses id (trace s)) <= (if known request then 1 else 0)
  /\ (quiescent s ->
      length (responses id (trace s)) = if known request then 1 else 0)
  /\ exists acts s',
      forallb is_settle acts = true /\ run acts s = Some s' /\ quiescent s'
      /\ length (responses id (trace s')) = if known request then 1 else 0.
Proof.
  intros Hs Hin.
  pose proof (received_is_the_request _ _ _ Hs Hin) as Hreq.
  pose proof (balance s (reachable_exchanges_ok s Hs) id) as Hb.
  rewrite Hreq in Hb. cbn in Hb. unfold is_known in Hb.
  repeat split.
  - lia.
  - intros Hq. rewrite (quiescent_owes id s Hq) in Hb. lia.
  - destruct (drain_with_run all_ok (sum_list_with weight (pending s)) s)
      as (acts & Hset & Hrun).
    exists acts, (drain all_ok s). repeat split; auto using drain_quiescent.
    pose proof (reachable_run _ _ _ Hs Hrun) as Hs'.
    pose proof (balance _ (reachable_exchanges_ok _ Hs') id) as Hb'.
    rewrite (requests_settles _ id _ _ Hset Hrun), Hreq in Hb'.
    pose proof (quiescent_owes id _ (drain_quiescent all_ok s)) as Hq0.
    unfold drain in Hq0. rewrite Hq0 in Hb'.
    cbn in Hb'. unfold is_known in Hb'. unfold drain. lia.
Qed.

Lemma one_response_per_known_request_witness :
  let s := mkState (Some false) false "" None [GetStatusCallback 0 (Some false)] 1
             [Received 0 getProxyStatus; StorageGet (Some false)] in
  reachable s /\ In (Received 0 getProxyStatus) (trace s)
  /\ length (responses 0 (trace s)) <= 1
  /\ (quiescent s -> length (responses 0 (trace s)) = 1)
  /\ exists acts s',
      forallb is_settle acts = true /\ run acts s = Some s' /\ quiescent s'
      /\ length (responses 0 (trace s')) = 1.
Proof.
  intros s.
  assert (Hr : reachable s).
  { exists (Some false), false, [Message getProxyStatus]. reflexivity. }
  assert (Hin : In (Received 0 getProxyStatus) (trace s)) by (cbn; auto).
  split; [exact Hr|]. split; [exact Hin|].
  exact (one_response_per_known_request s 0 getProxyStatus Hr Hin).
Defined.

(** C7 as stated fails: a message whose action is none of the three is
    received, leaves nothing pending, and no response is sent. *)
Lemma unknown_action_gets_no_response :
  exists s,
    run [Message (mkRequest "ping" false)] (boot (Some false) false) = Some s
    /\ requests 0 (trace s) = [mkRequest "ping" false]
    /\ quiescent s
    /\ responses 0 (trace s) = [].
Proof.
  exists (outcome [Message (mkRequest "ping" false)] (boot (Some false) false)).
  vm_compute. auto.
Qed.

(** ** Health classification *)

(** C6: a [checkServerStatus] request starts one fetch of the liveness URL;
    however that fetch settles, the handler sends one response, whose
    [online] is [true] exactly when a response with a status from 200 to
    299 arrived, and no rejection is left unhandled. *)
Theorem health_check_classifies :
  (forall s, exists s1,
      step (Message checkServerStatus) s = Some s1
      /\ trace s1 = trace s ++ [Received (next_exchange s) checkServerStatus;
                                Fetch "http://localhost:8080/pqc-info"]
      /\ pending s1 = pending s ++ [AwaitFetch (next_exchange s)])
  /\ (forall s i id e,
      pending s !! i = Some (AwaitFetch id) ->
      exists s' online status error,
        step (Settle i e) s = Some s'
        /\ trace s' = trace s ++ [Responded id (ServerStatusResponse online status error)]
        /\ pending s' = delete i (pending s)
        /\ (online = true <->
            exists code, net e = FetchResponse code /\ (200 <= code <= 299)%Z)).
Proof.
  split.
  - intros s. eexists. split; [reflexivity|]. script.
    rewrite <- app_assoc. auto.
  - intros s i id e Hi. cbn [step]. rewrite Hi.
    destruct e as [eng [code|message]]; script.
    + do 4 eexists. split; [reflexivity|]. cbn [net].
      repeat split; auto.
      * intros H. exists code. split; auto. unfold response_ok in H. lia.
      * intros (code' & [= <-] & H). unfold response_ok. lia.
    + do 4 eexists. split; [reflexivity|]. cbn [net].
      repeat split; auto; try discriminate.
      intros (code' & [=] & _).
Qed.

Lemma health_check_classifies_witness :
  let s := mkState (Some false) false "" None [AwaitFetch 0] 1
             [Received 0 checkServerStatus; Fetch "http://localhost:8080/pqc-info"] in
  pending s !! 0 = Some (AwaitFetch 0)
  /\ exists s' online status error,
       step (Settle 0 (mkEnv EngineOk (FetchResponse 503))) s = Some s'
       /\ trace s' = trace s ++ [Responded 0 (ServerStatusResponse online status error)]
       /\ pending s' = delete 0 (pending s)
       /\ (online = true <->
           exists code, net (mkEnv EngineOk (FetchResponse 503)) = FetchResponse code
                        /\ (200 <= code <= 299)%Z).
Proof.
  intros s. split; [reflexivity|].
  exact (proj2 health_check_classifies s 0 0 (mkEnv EngineOk (FetchResponse 503)) eq_refl).
Defined.

(** ** Engine failures outside the toggle handler *)

(** C8 at the failing input: the worker starts with the flag stored as
    [true] and the engine rejects the call with [PermissionDenied].  The
    failure is logged and the badge shows ["ERR"], but the rejected promise
    of [updateProxyRules] has no handler in the startup listener: it ends as
    an unhandled rejection.  The same happens in the storage listener, while
    the toggle handler, on the same failure, catches it and answers. *)
Theorem engine_failure_unhandled_outside_toggle :
  (exists s,
      run [Startup; Settle 0 permission_denied; Settle 0 permission_denied]
          (boot (Some true) false) = Some s
      /\ quiescent s
      /\ trace s = [StorageGet (Some true);
                    Log "Updating proxy rules: enabling proxy";
                    EngineInvoke true;
                    LogError "Error updating proxy rules:" "PermissionDenied";
                    BadgeText "ERR"; BadgeColor "#EF4444";
                    Unhandled "PermissionDenied"])
  /\ (exists s,
      run [ForeignWrite (Some true); Settle 0 permission_denied;
           Settle 0 permission_denied]
          (boot (Some false) false) = Some s
      /\ quiescent s
      /\ unhandled (trace s) = ["PermissionDenied"])
  /\ (exists s,
      run [Message (toggleProxy true); Settle 0 permission_denied;
           Settle 0 permission_denied]
          (boot (Some true) false) = Some s
      /\ quiescent s
      /\ unhandled (trace s) = []
      /\ responses 0 (trace s) = [ToggleResponse false None (Some "PermissionDenied")]).
Proof.
  split; [|split].
  - exists (outcome [Startup; Settle 0 permission_denied; Settle 0 permission_denied]
                    (boot (Some true) false)).
    vm_compute. auto.
  - exists (outcome [ForeignWrite (Some true); Settle 0 permission_denied;
                     Settle 0 permission_denied] (boot (Some false) false)).
    vm_compute. auto.
  - exists (outcome [Message (toggleProxy true); Settle 0 permission_denied;
                     Settle 0 permission_denied] (boot (Some true) false)).
    vm_compute. auto.
Qed.

(** ** Toggle requests while a toggle is in flight *)

(** C3, as the script has it: the toggle branch has no guard.  In every
    state, whatever is pending, it stores the requested value at once and
    queues its own callback (and the change event, when the value differs)
    behind the pending tasks, which it leaves in place. *)
Theorem toggle_is_always_accepted s b :
  exists s',
    step (Message (toggleProxy b)) s = Some s'
    /\ store s' = Some b
    /\ trace s' = trace s ++ [Received (next_exchange s) (toggleProxy b); StorageSet b]
    /\ pending s' =
       pending s
       ++ (if same_value (store s) (Some b) then []
           else [StorageChanged (Some (mkChange (store s) (Some b))) "sync"])
       ++ [ToggleSetCallback (next_exchange s) b]
    /\ ruleset s' = ruleset s
    /\ badge_text s' = badge_text s
    /\ badge_color s' = badge_color s.
Proof.
  eexists. split; [reflexivity|]. script.
  case_same; script_step; rewrite <- ?app_assoc; repeat split; reflexivity.
Qed.

(** C3 as stated fails: with the transition of a first request
    [toggleProxy(true)] still in flight, a second request
    [toggleProxy(false)] is not a no-op.  It overwrites the stored flag, two
    transitions are then in flight, and once everything pending has resumed
    (oldest first) the second request has been answered with a success for
    its own value. *)
Lemma second_toggle_in_flight_is_not_rejected :
  exists s1 s2 s3,
    run [Message (toggleProxy true)] (boot (Some false) false) = Some s1
    /\ In (ToggleSetCallback 0 true) (pending s1)
    /\ store s1 = Some true
    /\ step (Message (toggleProxy false)) s1 = Some s2
    /\ store s2 = Some false
    /\ In (ToggleSetCallback 0 true) (pending s2)
    /\ In (ToggleSetCallback 1 false) (pending s2)
    /\ run_in_order (repeat (Settle 0 all_ok) 8) s2 = Some s3
    /\ quiescent s3
    /\ responses 1 (trace s3) = [ToggleResponse true (Some false) None]
    /\ engine_calls (trace s3) = [true; true; false; false].
Proof.
  exists (outcome [Message (toggleProxy true)] (boot (Some false) false)),
         (outcome [Message (toggleProxy true); Message (toggleProxy false)]
                  (boot (Some false) false)),
         (outcome ([Message (toggleProxy true); Message (toggleProxy false)]
                   ++ repeat (Settle 0 all_ok) 8) (boot (Some false) false)).
  vm_compute. repeat split; auto.
Qed.

(** ** A toggle request served alone *)

Ltac toggle_task_cases t e H :=
  destruct t as [? ? | ? ? | ? | [[? ?]|] ns | ? [| | ? ?] | ?];
  cbn in H; try contradiction;
  repeat match type of H with _ /\ _ => destruct H as [? H] end;
  subst;
  destruct e as [[|?] ?];
  match goal with b : bool |- _ => destruct b end.

Lemma toggle_task_resume id b t e :
  toggle_task id b t -> Forall (toggle_task id b) (tasks_of t e).
Proof.
  intros H. toggle_task_cases t e H; footprint;
    repeat constructor; cbn; auto.
Qed.

Lemma serving_settle id b i e s s' :
  serving id b s -> step (Settle i e) s = Some s' -> serving id b s'.
Proof.
  intros [Hst Hall] (t & Ht & ->)%settle_inv. split.
  - rewrite resume_store. exact Hst.
  - rewrite resume_pending. cbn. apply Forall_app. split.
    + apply Forall_delete. exact Hall.
    + apply toggle_task_resume.
      eapply Forall_lookup_1; eauto.
Qed.

Lemma toggle_step_fields s b s1 :
  step (Message (toggleProxy b)) s = Some s1 ->
  store s1 = Some b
  /\ ruleset s1 = ruleset s
  /\ badge_text s1 = badge_text s
  /\ badge_color s1 = badge_color s.
Proof.
  intros [= <-]. script. case_same; script_step; auto.
Qed.

Lemma toggle_starts_serving s b s1 :
  quiescent s -> step (Message (toggleProxy b)) s = Some s1 ->
  serving (next_exchange s) b s1.
Proof.
  unfold serving. intros Hq [= <-]. script. subst.
  case_same; script_step; split; auto; repeat constructor; cbn; auto.
Qed.

Lemma fresh_exchange_silent s :
  reachable s -> responses (next_exchange s) (trace s) = [].
Proof.
  intros Hs%reachable_exchanges_ok.
  pose proof (balance s Hs (next_exchange s)) as Hb.
  rewrite (fresh_ids s Hs (next_exchange s)) in Hb by lia. cbn in Hb.
  destruct (responses (next_exchange s) (trace s)); [reflexivity|cbn in Hb; lia].
Qed.

Lemma toggle_starts_silent s b s1 :
  reachable s -> step (Message (toggleProxy b)) s = Some s1 ->
  responses (next_exchange s) (trace s1) = [].
Proof.
  intros Hs [= <-]. pose proof (fresh_exchange_silent s Hs) as Hf.
  script. case_same; script_step;
    rewrite !responses_app, Hf; reflexivity.
Qed.

Lemma settles_store acts : forall s s',
  forallb is_settle acts = true -> run acts s = Some s' -> store s' = store s.
Proof.
  induction acts as [|a acts IH]; cbn; intros s s' Hs Hrun.
  - congruence.
  - apply andb_prop in Hs as [Ha Hs]. destruct a; try discriminate.
    destruct (step (Settle i e) s) as [s1|] eqn:E; [|discriminate].
    rewrite (IH _ _ Hs Hrun).
    apply settle_inv in E as (t & _ & ->). rewrite resume_store. reflexivity.
Qed.

Lemma settles_serving id b acts : forall s s',
  forallb is_settle acts = true -> run acts s = Some s' ->
  serving id b s -> serving id b s'.
Proof.
  induction acts as [|a acts IH]; cbn; intros s s' Hs Hrun Hserv.
  - injection Hrun as <-. assumption.
  - apply andb_prop in Hs as [Ha Hs]. destruct a; try discriminate.
    destruct (step (Settle i e) s) as [s1|] eqn:E; [|discriminate].
    eauto using serving_settle.
Qed.

Lemma applied_if_succeeded_settle id b i e s s' :
  serving id b s -> applied_if_succeeded id b s ->
  step (Settle i e) s = Some s' -> applied_if_succeeded id b s'.
Proof.
  unfold applied_if_succeeded.
  intros [_ Hall] Hinv (t & Ht & ->)%settle_inv.
  pose proof (Forall_lookup_1 _ _ _ _ Hall Ht) as Htask.
  rewrite resume_trace, responses_app. cbn [trace set_pending].
  unfold effects_of, blank, boot.
  toggle_task_cases t e Htask; script; cbn [responses app ruleset];
    rewrite ?Nat.eqb_refl, ?app_nil_r;
    try exact Hinv; try reflexivity;
    rewrite in_app_iff; cbn [In]; intros [H|[H|[]]]; auto; discriminate.
Qed.

Lemma settles_applied_if_succeeded id b acts : forall s s',
  forallb is_settle acts = true -> run acts s = Some s' ->
  serving id b s -> applied_if_succeeded id b s -> applied_if_succeeded id b s'.
Proof.
  induction acts as [|a acts IH]; cbn; intros s s' Hs Hrun Hserv Hinv.
  - injection Hrun as <-. assumption.
  - apply andb_prop in Hs as [Ha Hs]. destruct a; try discriminate.
    destruct (step (Settle i e) s) as [s1|] eqn:E; [|discriminate].
    eauto using serving_settle, applied_if_succeeded_settle.
Qed.

Lemma toggle_alone_owes s b s1 :
  quiescent s -> step (Message (toggleProxy b)) s = Some s1 ->
  sum_list_with (owes (next_exchange s)) (pending s1) = 1
  /\ sum_list_with calls_due (pending s1)
     = (if same_value (store s) (Some b) then 1 else 2)
  /\ sum_list_with badge_due (pending s1)
     = (if same_value (store s) (Some b) then 1 else 2)
  /\ engine_calls (trace s1) = engine_calls (trace s)
  /\ badge_writes (trace s1) = badge_writes (trace s).
Proof.
  intros Hq [= <-]. script. subst.
  case_same; script_step; cbn;
    rewrite ?Nat.eqb_refl, !engine_calls_app, !badge_writes_app; cbn;
    rewrite ?app_nil_r; auto.
Qed.

(** ** Engine failure during a toggle *)

Lemma step_keeps_store a s s' :
  keeps_store a = true -> step a s = Some s' -> store s' = store s.
Proof.
  destruct a as [| |request|v|i e]; cbn [keeps_store]; try discriminate.
  - intros _ [= <-]. script. reflexivity.
  - intros Ha [= <-]. script.
    destruct (String.eqb (action request) "getProxyStatus");
      [|destruct (String.eqb (action request) "toggleProxy");
        [discriminate Ha|destruct (String.eqb (action request) "checkServerStatus")]];
      reflexivity.
  - intros _ (t & _ & ->)%settle_inv. rewrite resume_store. reflexivity.
Qed.

Lemma run_keeps_store acts : forall s s',
  forallb keeps_store acts = true -> run acts s = Some s' -> store s' = store s.
Proof.
  induction acts as [|a acts IH]; cbn; intros s s' Hk Hrun.
  - congruence.
  - apply andb_prop in Hk as [Ha Hk].
    destruct (step a s) as [s1|] eqn:E; [|discriminate].
    rewrite (IH _ _ Hk Hrun). eauto using step_keeps_store.
Qed.

Lemma owed_not_answered s i id t :
  reachable s -> pending s !! i = Some t -> owes id t = 1 ->
  responses id (trace s) = [].
Proof.
  intros Hs%reachable_exchanges_ok Hi Ht.
  pose proof (balance s Hs id) as Hb. pose proof (one_request s Hs id) as Ho.
  rewrite (sum_delete _ _ _ _ Hi), Ht in Hb.
  assert (sum_list_with is_known (requests id (trace s)) <= 1).
  { destruct (requests id (trace s)) as [|r [|r' l]]; cbn in *; try lia.
    unfold is_known. destruct (known r); lia. }
  destruct (responses id (trace s)); [reflexivity|cbn in Hb; lia].
Qed.

(** C1: a [toggleProxy] request with value [b] arrives in any state the
    worker can be in; other events may follow, as long as nothing else
    writes the flag.  Whenever the request's engine call then rejects with
    an error, the handler logs, answers [{success: false, error: message}]
    (the only response on the exchange), the badge is ["ERR"] on red, the
    engine is left as it was and the stored flag still holds the requested
    [b]. *)
Theorem toggle_engine_failure s b acts s1 i e message :
  reachable s ->
  forallb keeps_store acts = true ->
  run (Message (toggleProxy b) :: acts) s = Some s1 ->
  pending s1 !! i = Some (AwaitEngine (Some b) (FromToggle (next_exchange s) b)) ->
  engine e = EngineError message ->
  exists s2,
    step (Settle i e) s1 = Some s2
    /\ trace s2 = trace s1 ++
         [LogError "Error updating proxy rules:" message;
          BadgeText "ERR"; BadgeColor "#EF4444";
          LogError "Error updating proxy rules:" message;
          Responded (next_exchange s) (ToggleResponse false None (Some message))]
    /\ responses (next_exchange s) (trace s2) = [ToggleResponse false None (Some message)]
    /\ badge_text s2 = "ERR"
    /\ badge_color s2 = Some "#EF4444"
    /\ ruleset s2 = ruleset s1
    /\ store s2 = Some b.
Proof.
  intros Hs Hk Hrun Hi He.
  assert (Hsilent : responses (next_exchange s) (trace s1) = []).
  { eapply owed_not_answered; eauto using reachable_run.
    cbn. now rewrite Nat.eqb_refl. }
  cbn [run] in Hrun.
  destruct (step (Message (toggleProxy b)) s) as [s0|] eqn:Hmsg; [|discriminate].
  assert (Hstore : store s1 = Some b).
  { rewrite (run_keeps_store _ _ _ Hk Hrun).
    apply (toggle_step_fields _ _ _ Hmsg). }
  eexists. split; [cbn; rewrite Hi; reflexivity|].
  destruct e as [eng nt]. cbn in He. subst eng. clear Hmsg Hrun Hs.
  script. cbn.
  rewrite <- !app_assoc. cbn.
  rewrite responses_app, Hsilent. cbn. rewrite Nat.eqb_refl.
  repeat split; auto.
Qed.

Lemma toggle_engine_failure_witness :
  let s := boot (Some false) false in
  let acts := [Message getProxyStatus; Settle 1 all_ok] in
  let s1 := outcome (Message (toggleProxy true) :: acts) s in
  reachable s
  /\ run (Message (toggleProxy true) :: acts) s = Some s1
  /\ pending s1 !! 2 = Some (AwaitEngine (Some true) (FromToggle 0 true))
  /\ exists s2,
       step (Settle 2 permission_denied) s1 = Some s2
       /\ trace s2 = trace s1 ++
            [LogError "Error updating proxy rules:" "PermissionDenied";
             BadgeText "ERR"; BadgeColor "#EF4444";
             LogError "Error updating proxy rules:" "PermissionDenied";
             Responded 0 (ToggleResponse false None (Some "PermissionDenied"))]
       /\ responses 0 (trace s2) = [ToggleResponse false None (Some "PermissionDenied")]
       /\ badge_text s2 = "ERR"
       /\ badge_color s2 = Some "#EF4444"
       /\ ruleset s2 = ruleset s1
       /\ store s2 = Some true.
Proof.
  intros s acts s1.
  assert (Hrun : run (Message (toggleProxy true) :: acts) s = Some s1)
    by (vm_compute; reflexivity).
  assert (Hi : pending s1 !! 2 = Some (AwaitEngine (Some true) (FromToggle 0 true)))
    by (vm_compute; reflexivity).
  split; [apply reachable_boot|]. split; [exact Hrun|]. split; [exact Hi|].
  exact (toggle_engine_failure s true acts s1 2 permission_denied
           "PermissionDenied" (reachable_boot _ _) eq_refl Hrun Hi eq_refl).
Defined.

(** ** Convergence of engine and stored flag *)

(** C2, as the script has it: when a [toggleProxy] request with value [b] is
    served alone, the stored flag holds [b] from the first step on, and from
    the moment the success response is sent the engine status equals the
    stored flag.  (After a failure response nothing is rolled back, so the
    two may differ.) *)
Theorem successful_toggle_converges s b acts s' :
  reachable s ->
  quiescent s ->
  forallb is_settle acts = true ->
  run (Message (toggleProxy b) :: acts) s = Some s' ->
  store s' = Some b
  /\ (In (ToggleResponse true (Some b) None)
         (responses (next_exchange s) (trace s')) ->
      ruleset s' = truthy (store s')).
Proof.
  intros Hs Hq Hset Hrun. cbn [run] in Hrun.
  destruct (step (Message (toggleProxy b)) s) as [s0|] eqn:Hmsg; [|discriminate].
  pose proof (toggle_starts_serving _ _ _ Hq Hmsg) as Hserv.
  assert (H0 : applied_if_succeeded (next_exchange s) b s0).
  { unfold applied_if_succeeded.
    rewrite (toggle_starts_silent _ _ _ Hs Hmsg). intros []. }
  pose proof (settles_serving _ _ _ _ _ Hset Hrun Hserv) as [Hst _].
  pose proof (settles_applied_if_succeeded _ _ _ _ _ Hset Hrun Hserv H0) as Hinv.
  split; [exact Hst|]. intros Hin. rewrite Hst. cbn. auto.
Qed.

Lemma successful_toggle_converges_witness :
  let s := boot (Some false) false in
  let s' := drain all_ok (mkState (Some true) false "" None
              [StorageChanged (Some (mkChange (Some false) (Some true))) "sync";
               ToggleSetCallback 0 true] 1
              [Received 0 (toggleProxy true); StorageSet true]) in
  reachable s /\ quiescent s
  /\ run (Message (toggleProxy true) :: repeat (Settle 0 all_ok) 4) s = Some s'
  /\ store s' = Some true
  /\ (In (ToggleResponse true (Some true) None) (responses 0 (trace s')) ->
      ruleset s' = truthy (store s')).
Proof.
  intros s s'.
  assert (Hrun : run (Message (toggleProxy true) :: repeat (Settle 0 all_ok) 4) s
                 = Some s') by (vm_compute; reflexivity).
  split; [apply reachable_boot|]. split; [reflexivity|]. split; [exact Hrun|].
  exact (successful_toggle_converges s true (repeat (Settle 0 all_ok) 4) s'
           (reachable_boot _ _) eq_refl eq_refl Hrun).
Defined.

(** C2 as stated fails: a [toggleProxy(true)] request whose engine calls
    are rejected completes (its failure response is sent, nothing is
    pending) with the stored flag [true] and the engine still disabled. *)
Lemma failed_toggle_leaves_engine_behind :
  exists s,
    run (Message (toggleProxy true) :: repeat (Settle 0 permission_denied) 4)
        (boot (Some false) false) = Some s
    /\ quiescent s
    /\ responses 0 (trace s) = [ToggleResponse false None (Some "PermissionDenied")]
    /\ store s = Some true
    /\ ruleset s = false.
Proof.
  exists (outcome (Message (toggleProxy true) :: repeat (Settle 0 permission_denied) 4)
                  (boot (Some false) false)).
  vm_compute. auto.
Qed.

(** ** A toggle served alone whose engine calls succeed *)

Lemma settled_well_settle id b color0 i e s s' :
  serving id b s -> settled_well id b color0 s ->
  engine e = EngineOk ->
  step (Settle i e) s = Some s' -> settled_well id b color0 s'.
Proof.
  unfold settled_well, badge_shows.
  intros [_ Hall] [Hcol Hinv] He (t & Ht & ->)%settle_inv.
  pose proof (Forall_lookup_1 _ _ _ _ Hall Ht) as Htask.
  rewrite resume_trace. cbn [trace set_pending].
  setoid_rewrite responses_app. setoid_rewrite in_app_iff.
  unfold effects_of, blank, boot.
  toggle_task_cases t e Htask; try discriminate He; script;
    cbn [responses app In]; rewrite ?Nat.eqb_refl;
    (split; [first [exact Hcol | discriminate | auto] |]);
    intros r [Hr|Hr]; cbn [In] in Hr; try contradiction;
    try (destruct Hr as [<-|[]]);
    try (destruct (Hinv r Hr) as (-> & ? & ?));
    auto.
Qed.

Lemma settles_settled_well id b color0 acts : forall s s',
  forallb is_settle acts = true -> forallb engine_ok acts = true ->
  run acts s = Some s' ->
  serving id b s -> settled_well id b color0 s -> settled_well id b color0 s'.
Proof.
  induction acts as [|a acts IH]; cbn; intros s s' Hs Hok Hrun Hserv Hinv.
  - injection Hrun as <-. assumption.
  - apply andb_prop in Hs as [Ha Hs]. apply andb_prop in Hok as [Hoka Hok].
    destruct a; try discriminate.
    destruct (step (Settle i e) s) as [s1|] eqn:E; [|discriminate].
    cbn in Hoka. destruct (engine e) eqn:He; [|discriminate].
    eauto using serving_settle, settled_well_settle.
Qed.

Lemma toggle_alone_succeeds s b acts s' :
  reachable s ->
  quiescent s ->
  forallb is_settle acts = true ->
  forallb engine_ok acts = true ->
  run (Message (toggleProxy b) :: acts) s = Some s' ->
  quiescent s' ->
  responses (next_exchange s) (trace s') = [ToggleResponse true (Some b) None]
  /\ badge_shows b s'
  /\ ruleset s' = b
  /\ store s' = Some b
  /\ (b = false -> badge_color s' = badge_color s).
Proof.
  intros Hs Hq Hset Hok Hrun Hq'. cbn [run] in Hrun.
  destruct (step (Message (toggleProxy b)) s) as [s0|] eqn:Hmsg; [|discriminate].
  pose proof (toggle_starts_serving _ _ _ Hq Hmsg) as Hserv.
  assert (H0 : settled_well (next_exchange s) b (badge_color s) s0).
  { split.
    - intros _. apply (toggle_step_fields _ _ _ Hmsg).
    - rewrite (toggle_starts_silent _ _ _ Hs Hmsg). intros r []. }
  pose proof (settles_serving _ _ _ _ _ Hset Hrun Hserv) as [Hst _].
  pose proof (settles_settled_well _ _ _ _ _ _ Hset Hok Hrun Hserv H0) as [Hc Hinv].
  pose proof (settles_conserve _ _ (responses_balanced (next_exchange s))
                _ _ _ Hset Hrun) as Hlen.
  rewrite <- !length_responses in Hlen.
  rewrite (toggle_starts_silent _ _ _ Hs Hmsg) in Hlen.
  destruct (toggle_alone_owes _ _ _ Hq Hmsg) as (Ho & _). rewrite Ho in Hlen.
  rewrite (quiescent_owes _ _ Hq') in Hlen. cbn in Hlen.
  destruct (responses (next_exchange s) (trace s')) as [|r [|r' l]] eqn:Hresp;
    cbn in Hlen; try lia.
  destruct (Hinv r) as (-> & Hb & Hr); [now left|].
  repeat split; auto.
Qed.

(** C4: the flag is stored as [false] and nothing is pending; a
    [toggleProxy({enabled: true})] request arrives and every engine call
    resolves.  In whatever order the pending tasks resume, once nothing is
    pending the one response on the exchange is [{success: true, enabled:
    true}], the badge reads ["ON"] on green ([#10B981]), the ruleset is
    enabled and storage holds [true]. *)
Theorem toggle_on_happy_path s acts s' :
  reachable s ->
  quiescent s ->
  store s = Some false ->
  forallb is_settle acts = true ->
  forallb engine_ok acts = true ->
  run (Message (toggleProxy true) :: acts) s = Some s' ->
  quiescent s' ->
  responses (next_exchange s) (trace s') = [ToggleResponse true (Some true) None]
  /\ badge_text s' = "ON"
  /\ badge_color s' = Some "#10B981"
  /\ store s' = Some true
  /\ ruleset s' = true.
Proof.
  intros Hs Hq _ Hset Hok Hrun Hq'.
  destruct (toggle_alone_succeeds s true acts s' Hs Hq Hset Hok Hrun Hq')
    as (Hr & [Ht Hc] & Hrule & Hst & _).
  auto.
Qed.

Lemma toggle_on_happy_path_witness :
  let s := boot (Some false) false in
  let acts := [Settle 1 all_ok; Settle 1 all_ok; Settle 0 all_ok; Settle 0 all_ok] in
  let s' := mkState (Some true) true "ON" (Some "#10B981") [] 1
              [Received 0 (toggleProxy true); StorageSet true;
               Log "Updating proxy rules: enabling proxy"; EngineInvoke true;
               BadgeText "ON"; BadgeColor "#10B981";
               Log "Proxy enabled - redirecting traffic through PQC proxy";
               Log "Proxy rules updated successfully: enabled";
               Responded 0 (ToggleResponse true (Some true) None);
               Log "Updating proxy rules: enabling proxy"; EngineInvoke true;
               BadgeText "ON"; BadgeColor "#10B981";
               Log "Proxy enabled - redirecting traffic through PQC proxy";
               Log "Proxy rules updated successfully: enabled"] in
  reachable s /\ quiescent s /\ store s = Some false
  /\ run (Message (toggleProxy true) :: acts) s = Some s'
  /\ quiescent s'
  /\ responses 0 (trace s') = [ToggleResponse true (Some true) None]
  /\ badge_text s' = "ON"
  /\ badge_color s' = Some "#10B981"
  /\ store s' = Some true
  /\ ruleset s' = true.
Proof.
  intros s acts s'.
  assert (Hrun : run (Message (toggleProxy true) :: acts) s = Some s')
    by (vm_compute; reflexivity).
  split; [apply reachable_boot|]. do 2 (split; [reflexivity|]).
  split; [exact Hrun|]. split; [reflexivity|].
  exact (toggle_on_happy_path s acts s' (reachable_boot _ _) eq_refl eq_refl
           eq_refl eq_refl Hrun eq_refl).
Defined.

(** ** Engine calls of a toggle served alone *)

Lemma toggle_task_engine_calls id b t e :
  toggle_task id b t ->
  exists n, engine_calls (effects_of t e) = repeat b n.
Proof.
  intros H. toggle_task_cases t e H; footprint;
    solve [exists 0; reflexivity | exists 1; reflexivity].
Qed.

Lemma settles_engine_calls id b acts : forall s s',
  forallb is_settle acts = true -> run acts s = Some s' ->
  serving id b s ->
  exists n, engine_calls (trace s') = engine_calls (trace s) ++ repeat b n.
Proof.
  induction acts as [|a acts IH]; cbn; intros s s' Hs Hrun Hserv.
  - injection Hrun as <-. exists 0. cbn. now rewrite app_nil_r.
  - apply andb_prop in Hs as [Ha Hs]. destruct a; try discriminate.
    destruct (step (Settle i e) s) as [s1|] eqn:E; [|discriminate].
    destruct (IH _ _ Hs Hrun (serving_settle _ _ _ _ _ _ Hserv E)) as (n & Hn).
    apply settle_inv in E as (t & Ht & ->).
    destruct Hserv as [_ Hall].
    destruct (toggle_task_engine_calls id b t e (Forall_lookup_1 _ _ _ _ Hall Ht))
      as (k & Hk).
    exists (k + n). rewrite Hn, resume_trace, engine_calls_app, Hk. cbn.
    rewrite repeat_app, app_assoc. reflexivity.
Qed.

Lemma toggle_alone_engine_calls s b acts s' :
  quiescent s ->
  forallb is_settle acts = true ->
  run (Message (toggleProxy b) :: acts) s = Some s' ->
  quiescent s' ->
  engine_calls (trace s')
  = engine_calls (trace s)
    ++ repeat b (if same_value (store s) (Some b) then 1 else 2)
  /\ length (badge_writes (trace s'))
     = length (badge_writes (trace s))
       + (if same_value (store s) (Some b) then 1 else 2).
Proof.
  intros Hq Hset Hrun Hq'. cbn [run] in Hrun.
  destruct (step (Message (toggleProxy b)) s) as [s0|] eqn:Hmsg; [|discriminate].
  pose proof (toggle_starts_serving _ _ _ Hq Hmsg) as Hserv.
  destruct (toggle_alone_owes _ _ _ Hq Hmsg) as (_ & Hcalls & Hbadge & Htr & Hbw).
  pose proof (settles_conserve _ _ engine_calls_balanced _ _ _ Hset Hrun) as Hc.
  pose proof (settles_conserve _ _ badge_writes_balanced _ _ _ Hset Hrun) as Hb.
  rewrite <- !length_engine_calls in Hc. rewrite <- !length_badge_writes in Hb.
  unfold quiescent in Hq'. rewrite Hq', Hcalls, Htr in Hc.
  rewrite Hq', Hbadge, Hbw in Hb. cbn in Hc, Hb.
  destruct (settles_engine_calls _ _ _ _ _ Hset Hrun Hserv) as (n & Hn).
  rewrite Htr in Hn. split; [|lia].
  rewrite Hn in Hc. rewrite length_app, repeat_length in Hc.
  rewrite Hn. f_equal. f_equal. lia.
Qed.

(** ** Toggling to the value already stored *)

(** C9, as the script has it: the stored flag is already [b], nothing is
    pending, the badge shows [b] (["ON"] on green for [true], the empty text
    for [false]) and the engine call resolves.  Then a [toggleProxy] request
    with value [b] is answered with success, calls the engine once, and
    leaves badge text, badge colour and the stored flag (so also the value
    [getProxyStatus] reports) as they were. *)
Theorem same_state_toggle_keeps_display s b acts s' :
  reachable s ->
  quiescent s ->
  store s = Some b ->
  badge_shows b s ->
  forallb is_settle acts = true ->
  forallb engine_ok acts = true ->
  run (Message (toggleProxy b) :: acts) s = Some s' ->
  quiescent s' ->
  responses (next_exchange s) (trace s') = [ToggleResponse true (Some b) None]
  /\ engine_calls (trace s') = engine_calls (trace s) ++ [b]
  /\ badge_text s' = badge_text s
  /\ badge_color s' = badge_color s
  /\ store s' = store s
  /\ or_false (store s') = or_false (store s).
Proof.
  intros Hs Hq Hst Hbadge Hset Hok Hrun Hq'.
  destruct (toggle_alone_succeeds s b acts s' Hs Hq Hset Hok Hrun Hq')
    as (Hr & Hb' & _ & Hst' & Hcol).
  destruct (toggle_alone_engine_calls s b acts s' Hq Hset Hrun Hq') as (Hcalls & _).
  rewrite Hst in Hcalls. replace (same_value (Some b) (Some b)) with true in Hcalls
    by (destruct b; reflexivity).
  rewrite Hst', Hst. unfold badge_shows in *.
  destruct b; cbn in *; intuition congruence.
Qed.

Lemma same_state_toggle_keeps_display_witness :
  let s := outcome [Message (toggleProxy true); Settle 0 all_ok; Settle 0 all_ok]
                   (boot (Some true) true) in
  let acts := [Settle 0 all_ok; Settle 0 all_ok] in
  let s' := outcome (Message (toggleProxy true) :: acts) s in
  reachable s /\ quiescent s /\ store s = Some true /\ badge_shows true s
  /\ run (Message (toggleProxy true) :: acts) s = Some s'
  /\ quiescent s'
  /\ responses 1 (trace s') = [ToggleResponse true (Some true) None]
  /\ engine_calls (trace s') = engine_calls (trace s) ++ [true]
  /\ badge_text s' = badge_text s
  /\ badge_color s' = badge_color s
  /\ store s' = store s
  /\ or_false (store s') = or_false (store s).
Proof.
  intros s acts s'.
  assert (Hr : reachable s).
  { exists (Some true), true,
      [Message (toggleProxy true); Settle 0 all_ok; Settle 0 all_ok].
    vm_compute. reflexivity. }
  assert (Hq : quiescent s) by (vm_compute; reflexivity).
  assert (Hst : store s = Some true) by (vm_compute; reflexivity).
  assert (Hb : badge_shows true s) by (vm_compute; split; reflexivity).
  assert (Hrun : run (Message (toggleProxy true) :: acts) s = Some s')
    by (vm_compute; reflexivity).
  assert (Hq' : quiescent s') by (vm_compute; reflexivity).
  do 6 (split; [assumption|]).
  exact (same_state_toggle_keeps_display s true acts s' Hr Hq Hst Hb
           eq_refl eq_refl Hrun Hq').
Defined.

(** C9 as stated fails: after a [toggleProxy(true)] whose engine calls were
    rejected, the stored flag is [true] and the badge reads ["ERR"] on red;
    a second [toggleProxy(true)], equal to the stored flag and with the
    engine now resolving, succeeds and changes the badge to ["ON"] on
    green. *)
Lemma same_state_toggle_after_failure_changes_badge :
  exists s s',
    run (Message (toggleProxy true) :: repeat (Settle 0 permission_denied) 4)
        (boot (Some false) false) = Some s
    /\ quiescent s
    /\ store s = Some true
    /\ badge_text s = "ERR"
    /\ badge_color s = Some "#EF4444"
    /\ run [Message (toggleProxy true); Settle 0 all_ok; Settle 0 all_ok] s = Some s'
    /\ quiescent s'
    /\ responses 1 (trace s') = [ToggleResponse true (Some true) None]
    /\ badge_text s' = "ON"
    /\ badge_color s' = Some "#10B981".
Proof.
  exists (outcome (Message (toggleProxy true) :: repeat (Settle 0 permission_denied) 4)
                  (boot (Some false) false)),
         (outcome (Message (toggleProxy true) :: repeat (Settle 0 permission_denied) 4
                   ++ [Message (toggleProxy true); Settle 0 all_ok; Settle 0 all_ok])
                  (boot (Some false) false)).
  vm_compute. repeat split; auto.
Qed.

(** ** The storage listener *)

(** C10: every write to [proxyEnabled] in the [sync] area that changes the
    value, by the worker or by anyone else, raises a change event; the
    listener answers every such event with a call of [updateProxyRules] on
    the new value.  So a [toggleProxy] request that changes the stored value
    leaves two tasks behind, the change event and the handler's own
    callback, and, served alone until nothing is pending, calls the engine
    exactly twice with the new value and writes the badge text twice. *)
Theorem storage_change_reapplies_rules :
  (forall s v,
      same_value (store s) v = false ->
      exists s',
        step (ForeignWrite v) s = Some s'
        /\ store s' = v
        /\ pending s' = pending s ++ [StorageChanged (Some (mkChange (store s) v)) "sync"])
  /\ (forall s i change e,
      pending s !! i = Some (StorageChanged (Some change) "sync") ->
      exists s',
        step (Settle i e) s = Some s'
        /\ trace s' = trace s ++
             [Log ("Updating proxy rules: "
                   +:+ (if truthy (newValue change) then "enabling" else "disabling")
                   +:+ " proxy");
              EngineInvoke (truthy (newValue change))]
        /\ pending s' = delete i (pending s) ++ [AwaitEngine (newValue change) FromListener])
  /\ (forall s b,
      same_value (store s) (Some b) = false ->
      exists s1,
        step (Message (toggleProxy b)) s = Some s1
        /\ pending s1 = pending s ++
             [StorageChanged (Some (mkChange (store s) (Some b))) "sync";
              ToggleSetCallback (next_exchange s) b])
  /\ (forall s b acts s',
      quiescent s ->
      same_value (store s) (Some b) = false ->
      forallb is_settle acts = true ->
      run (Message (toggleProxy b) :: acts) s = Some s' ->
      quiescent s' ->
      engine_calls (trace s') = engine_calls (trace s) ++ [b; b]
      /\ length (badge_writes (trace s')) = length (badge_writes (trace s)) + 2).
Proof.
  split; [|split; [|split]].
  - intros s v Hv. eexists. split; [reflexivity|]. script. rewrite Hv. auto.
  - intros s i change e Hi. cbn [step]. rewrite Hi. eexists. split; [reflexivity|].
    script. rewrite <- app_assoc. auto.
  - intros s b Hv. eexists. split; [reflexivity|]. script. rewrite Hv.
    script_step. rewrite <- app_assoc. reflexivity.
  - intros s b acts s' Hq Hv Hset Hrun Hq'.
    destruct (toggle_alone_engine_calls s b acts s' Hq Hset Hrun Hq') as [Hc Hb].
    rewrite Hv in Hc, Hb. auto.
Qed.

Lemma storage_change_reapplies_rules_witness :
  let s := boot (Some false) false in
  let acts := [Settle 1 all_ok; Settle 1 permission_denied; Settle 0 all_ok;
               Settle 0 all_ok] in
  let s' := outcome (Message (toggleProxy true) :: acts) s in
  quiescent s /\ same_value (store s) (Some true) = false
  /\ run (Message (toggleProxy true) :: acts) s = Some s'
  /\ quiescent s'
  /\ engine_calls (trace s') = engine_calls (trace s) ++ [true; true]
  /\ length (badge_writes (trace s')) = length (badge_writes (trace s)) + 2.
Proof.
  intros s acts s'.
  assert (Hrun : run (Message (toggleProxy true) :: acts) s = Some s')
    by (vm_compute; reflexivity).
  assert (Hq' : quiescent s') by (vm_compute; reflexivity).
  split; [reflexivity|]. split; [reflexivity|].
  split; [exact Hrun|]. split; [exact Hq'|].
  exact (proj2 (proj2 (proj2 storage_change_reapplies_rules)) s true acts s'
           eq_refl eq_refl eq_refl Hrun Hq').
Defined.

(** ** Startup reconciliation *)

Lemma guarded_true tr : guarded true tr = true.
Proof.
  induction tr as [|[] tr IH]; cbn; auto.
  - destruct enable; auto.
  - destruct response as [[|]| |]; auto.
Qed.

Lemma guarded_app seen a : forall b,
  guarded seen (a ++ b) = guarded seen a && guarded (seen || enable_called a) b.
Proof.
  unfold enable_called. revert seen.
  induction a as [|ef a IH]; intros seen b; cbn.
  - now rewrite orb_false_r.
  - destruct ef; cbn; rewrite ?IH; auto.
    + destruct enable; cbn; rewrite ?IH, ?guarded_true, ?orb_true_r; cbn;
        auto using guarded_true.
    + destruct response as [[|]| |]; rewrite ?IH; auto.
      destruct seen; cbn; auto.
Qed.

Lemma enable_called_app a b :
  enable_called (a ++ b) = enable_called a || enable_called b.
Proof. unfold enable_called. now rewrite engine_calls_app, existsb_app. Qed.

Lemma enable_called_in tr : enable_called tr = true -> In (EngineInvoke true) tr.
Proof.
  unfold enable_called.
  induction tr as [|ef tr IH]; cbn; [discriminate|].
  destruct ef; cbn; auto.
  destruct enable; cbn; auto.
Qed.

Lemma guarded_spec tr : forall seen pre id post,
  guarded seen tr = true ->
  tr = pre ++ Responded id (ProxyStatusResponse true) :: post ->
  seen = true \/ In (EngineInvoke true) pre.
Proof.
  intros seen pre id post Hg ->.
  rewrite guarded_app in Hg. apply andb_prop in Hg as [_ Hg].
  cbn in Hg. apply andb_prop in Hg as [Hg _].
  apply orb_prop in Hg as [Hg|Hg]; auto using enable_called_in.
Qed.

Lemma effects_quiet t e seen :
  storage_completion t = false -> guarded seen (effects_of t e) = true.
Proof.
  task_cases t e; try discriminate; intros _; footprint; cbn;
    try destruct (truthy _); reflexivity.
Qed.

Lemma external_reconciling a s s' :
  is_settle a = false -> reconciling s -> step a s = Some s' -> reconciling s'.
Proof.
  unfold reconciling. intros Ha [Hg Hp] H.
  destruct a as [| |request|v|i e]; try discriminate; injection H as <-;
    script;
    try (destruct (String.eqb (action request) "getProxyStatus") eqn:E1;
      [|destruct (String.eqb (action request) "toggleProxy") eqn:E2;
        [|destruct (String.eqb (action request) "checkServerStatus") eqn:E3]];
      script_step);
    case_same; script_step;
    rewrite ?guarded_app, ?enable_called_app, ?Hg; cbn;
    (split; [reflexivity|]);
    (destruct Hp as [->|(rest & ->)]; [left; reflexivity|right; eexists; reflexivity]).
Qed.

Lemma settle_reconciling i e s s' :
  in_order (Settle i e) s = true -> reconciling s ->
  step (Settle i e) s = Some s' -> reconciling s'.
Proof.
  unfold reconciling. intros Hord [Hg Hp] (t & Ht & ->)%settle_inv.
  rewrite resume_trace, resume_pending. cbn [trace pending set_pending].
  rewrite guarded_app, enable_called_app, Hg. cbn [andb orb].
  destruct Hp as [Hc|(rest & Hp)].
  - rewrite Hc. cbn. auto using guarded_true.
  - cbn [in_order] in Hord. rewrite Ht in Hord. rewrite Hp in *.
    destruct i as [|j].
    + injection Ht as <-. footprint. cbn. rewrite orb_true_r. auto.
    + destruct (storage_completion t) eqn:Hsc; [discriminate Hord|].
      rewrite (effects_quiet _ _ _ Hsc). split; [reflexivity|].
      right. cbn. eauto.
Qed.

Lemma run_in_order_reconciling acts : forall s s',
  reconciling s -> run_in_order acts s = Some s' -> reconciling s'.
Proof.
  induction acts as [|a acts IH]; cbn; intros s s' Hinv Hrun.
  - injection Hrun as <-. assumption.
  - destruct (in_order a s) eqn:Hord; [|discriminate].
    destruct (step a s) as [s1|] eqn:E; [|discriminate].
    apply (IH s1 s'); [|assumption].
    destruct (is_settle a) eqn:Ha.
    + destruct a; try discriminate. eauto using settle_reconciling.
    + eauto using external_reconciling.
Qed.

Lemma startup_then_resume s e :
  run [Startup; Settle (length (pending s)) e] s
  = Some (resume (StartupGetResumes (store s)) e (emit (StorageGet (store s)) s)).
Proof.
  destruct s as [st rs bt bc pd nx tr].
  cbn [run step].
  cbv beta delta [onStartup storage_sync_get spawn emit set_pending].
  cbn [store ruleset badge_text badge_color pending next_exchange trace].
  rewrite list_lookup_middle by reflexivity.
  rewrite delete_middle, app_nil_r. reflexivity.
Qed.

(** C5: the startup listener reads the stored flag and, when the read
    completes, calls the engine: enable when the flag is [true], disable when
    it is [false] or absent.  From a process start with the flag stored as
    [true] whose first event is the startup event, and with storage
    operations completing in issue order, every status response [{enabled:
    true}] is preceded in the trace by the call enabling the ruleset. *)
Theorem startup_reconciles :
  (forall s e, exists s',
      run [Startup; Settle (length (pending s)) e] s = Some s'
      /\ trace s' = trace s ++
           [StorageGet (store s);
            Log ("Updating proxy rules: "
                 +:+ (match store s with
                      | Some true => "enabling"
                      | Some false | None => "disabling"
                      end)
                 +:+ " proxy");
            EngineInvoke (match store s with
                          | Some true => true
                          | Some false | None => false
                          end)]
      /\ store s' = store s)
  /\ (forall engine_on acts s' pre id post,
      run_in_order (Startup :: acts) (boot (Some true) engine_on) = Some s' ->
      trace s' = pre ++ Responded id (ProxyStatusResponse true) :: post ->
      In (EngineInvoke true) pre).
Proof.
  split.
  - intros s e. eexists. split; [apply startup_then_resume|].
    script. destruct store0 as [[|]|]; cbn; rewrite <- !app_assoc; auto.
  - intros engine_on acts s' pre id post Hrun Htr.
    cbn [run_in_order in_order step] in Hrun.
    assert (H0 : reconciling (onStartup (boot (Some true) engine_on))).
    { split; [reflexivity|]. right. eexists. reflexivity. }
    destruct (run_in_order_reconciling _ _ _ H0 Hrun) as [Hg _].
    destruct (guarded_spec _ _ _ _ _ Hg Htr) as [?|?]; [discriminate|assumption].
Qed.

Lemma startup_reconciles_witness :
  let acts := [Message getProxyStatus; Settle 0 all_ok; Settle 0 all_ok] in
  let s' := outcome (Startup :: acts) (boot (Some true) false) in
  let pre := [StorageGet (Some true); Received 0 getProxyStatus;
              StorageGet (Some true);
              Log "Updating proxy rules: enabling proxy"; EngineInvoke true] in
  run_in_order (Startup :: acts) (boot (Some true) false) = Some s'
  /\ trace s' = pre ++ Responded 0 (ProxyStatusResponse true) :: []
  /\ In (EngineInvoke true) pre.
Proof.
  intros acts s' pre.
  assert (Hrun : run_in_order (Startup :: acts) (boot (Some true) false) = Some s')
    by (vm_compute; reflexivity).
  assert (Htr : trace s' = pre ++ Responded 0 (ProxyStatusResponse true) :: [])
    by (vm_compute; reflexivity).
  split; [exact Hrun|]. split; [exact Htr|].
  exact (proj2 startup_reconciles false acts s' pre 0 [] Hrun Htr).
Defined.

(** * Further properties of the worker *)

(** ** What an event adds *)

Lemma owes_le_1 id t : owes id t <= 1.
Proof.
  destruct t as [? ?|? ?|?|? ?|? [| |? ?]|?]; cbn; try lia;
    destruct (Nat.eqb id _); lia.
Qed.

Lemma sum_zero_Forall {A} (f : A -> nat) (l : list A) :
  sum_list_with f l = 0 -> Forall (fun x => f x = 0) l.
Proof.
  induction l as [|x l IH]; cbn; intros H; constructor; [lia|apply IH; lia].
Qed.

Lemma Forall_weaken {A} (P Q : A -> Prop) (l : list A) :
  Forall P l -> (forall x, P x -> Q x) -> Forall Q l.
Proof. induction 1; constructor; auto. Qed.

Lemma Forall_In {A} (P : A -> Prop) (l : list A) (x : A) :
  Forall P l -> In x l -> P x.
Proof. induction 1; cbn; [intros []|intros [<-|Hx]; auto]. Qed.

Lemma not_owing_resume id t e :
  owes id t = 0 ->
  responses id (effects_of t e) = []
  /\ Forall (fun t' => owes id t' = 0) (tasks_of t e).
Proof.
  intros H. pose proof (responses_balanced id t e) as Hb.
  rewrite H, <- length_responses in Hb. split.
  - destruct (responses id (effects_of t e)); [reflexivity|cbn in Hb; lia].
  - apply sum_zero_Forall. lia.
Qed.

(** A message adds its [Received] entry and tasks that owe only to the new
    exchange and belong to the branch of its action; it sends no response. *)
Lemma message_footprint request s s' :
  step (Message request) s = Some s' ->
  exists out new,
    trace s' = trace s ++ Received (next_exchange s) request :: out
    /\ pending s' = pending s ++ new
    /\ next_exchange s' = S (next_exchange s)
    /\ (forall id, responses id out = [] /\ requests id out = [])
    /\ Forall (fun t => serves request t = true
                        /\ forall id, owes id t = 1 -> id = next_exchange s) new.
Proof.
  destruct s as [st rs bt bc pd nx tr].
  intros [= <-]. script.
  destruct (String.eqb (action request) "getProxyStatus") eqn:E1;
    [|destruct (String.eqb (action request) "toggleProxy") eqn:E2;
      [|destruct (String.eqb (action request) "checkServerStatus") eqn:E3]];
    script_step; case_same; script_step;
    rewrite <- ?app_assoc; cbn [app];
    do 2 eexists; (split; [reflexivity|]);
    (split; [try reflexivity; symmetry; apply app_nil_r|]);
    (split; [reflexivity|]); (split; [intros id; split; reflexivity|]);
    repeat (apply Forall_cons;
            [split;
             [cbn; rewrite ?E1, ?E2, ?E3, ?eqb_reflx; reflexivity
             |intros id Hid; cbn in Hid;
              first [discriminate Hid
                    |destruct (Nat.eqb_spec id nx); [auto|discriminate Hid]]]|]);
    apply Forall_nil.
Qed.

(** The install event, the startup event and a foreign write add tasks that
    owe no response, and send none. *)
Lemma platform_footprint a s s' :
  match a with Installed | Startup | ForeignWrite _ => True | _ => False end ->
  step a s = Some s' ->
  exists out new,
    trace s' = trace s ++ out
    /\ pending s' = pending s ++ new
    /\ next_exchange s' = next_exchange s
    /\ (forall id, responses id out = [] /\ requests id out = [])
    /\ Forall (fun t => forall id, owes id t = 0) new.
Proof.
  destruct s as [st rs bt bc pd nx tr].
  destruct a as [| |request|v|i e]; try contradiction; intros _ [= <-];
    script; case_same; script_step;
    rewrite <- ?app_assoc; cbn [app];
    do 2 eexists; (split; [try reflexivity; symmetry; apply app_nil_r|]);
    (split; [try reflexivity; symmetry; apply app_nil_r|]);
    (split; [reflexivity|]); (split; [intros id; split; reflexivity|]);
    repeat (apply Forall_cons; [intros id; reflexivity|]); apply Forall_nil.
Qed.

(** ** Responses follow the message protocol *)

Lemma serves_resume request id t e :
  serves request t = true -> owes id t = 1 ->
  Forall (fun r => conforms request r = true) (responses id (effects_of t e))
  /\ Forall (fun t' => owes id t' = 1 -> serves request t' = true) (tasks_of t e).
Proof.
  task_cases t e; cbn [serves owes]; intros Hs Ho; try discriminate Ho;
    footprint; cbn [responses app];
    try (destruct (Nat.eqb id _); [|discriminate Ho]);
    (split; repeat constructor); cbn; auto;
    try (apply andb_prop in Hs as [Hs1 Hs2]); rewrite ?Hs1, ?Hs2, ?Hs; cbn; auto;
    destruct (response_ok _); reflexivity.
Qed.

Lemma requests_received id id' request :
  requests id [Received id' request] = if Nat.eqb id id' then [request] else [].
Proof. reflexivity. Qed.

Lemma fresh_exchange_owes s :
  exchanges_ok s ->
  Forall (fun t => owes (next_exchange s) t = 0) (pending s)
  /\ responses (next_exchange s) (trace s) = [].
Proof.
  intros Hs. pose proof (balance s Hs (next_exchange s)) as Hb.
  rewrite (fresh_ids s Hs (next_exchange s)) in Hb by lia. cbn in Hb. split.
  - apply sum_zero_Forall. lia.
  - destruct (responses (next_exchange s) (trace s)); [reflexivity|cbn in Hb; lia].
Qed.

Lemma step_protocol_ok a s s' :
  exchanges_ok s -> protocol_ok s -> step a s = Some s' -> protocol_ok s'.
Proof.
  intros Hex Hinv Hstep id request Hreq.
  destruct a as [| |request0|v|i e].
  1,2,4: match type of Hstep with
         | step ?a _ = _ =>
             destruct (platform_footprint a _ _ I Hstep)
               as (out & new & Htr & Hpe & _ & Hout & Hnew)
         end;
         rewrite Htr, Hpe in *;
         rewrite requests_app, (proj2 (Hout id)), app_nil_r in Hreq;
         rewrite responses_app, (proj1 (Hout id)), app_nil_r;
         destruct (Hinv id request Hreq) as [Hp Hr]; split; [|exact Hr];
         apply Forall_app; split; [exact Hp|];
         eapply Forall_weaken; [exact Hnew|]; cbn; intros t Ht Ho;
         rewrite Ht in Ho; discriminate.
  - destruct (message_footprint _ _ _ Hstep)
      as (out & new & Htr & Hpe & _ & Hout & Hnew).
    rewrite Htr, Hpe in *.
    change (Received (next_exchange s) request0 :: out)
      with ([Received (next_exchange s) request0] ++ out) in *.
    rewrite !requests_app, (proj2 (Hout id)), app_nil_r, requests_received in Hreq.
    rewrite !responses_app, (proj1 (Hout id)), app_nil_r. cbn [responses].
    rewrite ?app_nil_r.
    destruct (Nat.eqb_spec id (next_exchange s)) as [->|Hne].
    + destruct (fresh_exchange_owes s Hex) as [Hp Hr].
      rewrite (fresh_ids s Hex (next_exchange s)) in Hreq by lia.
      cbn in Hreq. injection Hreq as <-. rewrite Hr. split; [|constructor].
      apply Forall_app. split.
      * eapply Forall_weaken; [exact Hp|]. cbn. intros t Ht Ho.
        rewrite Ht in Ho. discriminate.
      * eapply Forall_weaken; [exact Hnew|]. cbn. intros t [Ht _] _. exact Ht.
    + rewrite app_nil_r in Hreq. destruct (Hinv id request Hreq) as [Hp Hr].
      split; [|exact Hr]. apply Forall_app. split; [exact Hp|].
      eapply Forall_weaken; [exact Hnew|]. cbn. intros t [_ Ht] Ho.
      apply Ht in Ho. contradiction.
  - apply settle_inv in Hstep as (t & Ht & ->).
    rewrite resume_trace in *. rewrite resume_pending.
    cbn [trace pending set_pending] in *.
    rewrite requests_app, requests_resume, app_nil_r in Hreq.
    destruct (Hinv id request Hreq) as [Hp Hr].
    rewrite responses_app.
    pose proof (owes_le_1 id t) as Hle.
    destruct (owes id t) as [|[|n]] eqn:Ho; [| |lia].
    + destruct (not_owing_resume id t e Ho) as [Hre Hta]. rewrite Hre, app_nil_r.
      split; [|exact Hr]. apply Forall_app. split.
      * apply Forall_delete. exact Hp.
      * eapply Forall_weaken; [exact Hta|]. cbn. intros t' Ht' Ho'.
        rewrite Ht' in Ho'. discriminate.
    + pose proof (Forall_lookup_1 _ _ _ _ Hp Ht Ho) as Hs.
      destruct (serves_resume request id t e Hs Ho) as [Hre Hta]. split.
      * apply Forall_app. split; [apply Forall_delete; exact Hp|exact Hta].
      * apply Forall_app. split; assumption.
Qed.

Lemma boot_protocol_ok persisted engine_on : protocol_ok (boot persisted engine_on).
Proof. intros id request H. discriminate H. Qed.

Lemma reachable_protocol_ok s : reachable s -> protocol_ok s.
Proof.
  intros Hs.
  enough (exchanges_ok s /\ protocol_ok s) by tauto.
  revert s Hs. apply reachable_invariant.
  - intros p r. split; [apply boot_exchanges_ok|apply boot_protocol_ok].
  - intros a s s' [Hex Hp] Hstep. split.
    + eapply step_exchanges_ok; eauto.
    + eapply step_protocol_ok; eauto.
Qed.

(** X1: in every state the worker can reach, every response sent on an
    exchange has the shape the script gives the action of the request
    received on that exchange: [{enabled}] for [getProxyStatus];
    [{success: true, enabled}] with the requested value, or [{success:
    false, error}], for [toggleProxy]; [{online, status}] with [online] the
    [ok] of the status, or [{online: false, error}], for
    [checkServerStatus]. *)
Theorem responses_follow_protocol s id request r :
  reachable s ->
  In (Received id request) (trace s) ->
  In r (responses id (trace s)) ->
  conforms request r = true.
Proof.
  intros Hs Hin Hr.
  pose proof (received_is_the_request _ _ _ Hs Hin) as Hreq.
  destruct (reachable_protocol_ok s Hs id request Hreq) as [_ Hall].
  exact (Forall_In _ _ _ Hall Hr).
Qed.

Lemma responses_follow_protocol_witness :
  let s := outcome [Message (toggleProxy true); Settle 1 all_ok; Settle 1 permission_denied]
                   (boot (Some false) false) in
  let r := ToggleResponse false None (Some "PermissionDenied") in
  reachable s
  /\ In (Received 0 (toggleProxy true)) (trace s)
  /\ In r (responses 0 (trace s))
  /\ conforms (toggleProxy true) r = true.
Proof.
  intros s r.
  assert (Hs : reachable s).
  { exists (Some false), false,
      [Message (toggleProxy true); Settle 1 all_ok; Settle 1 permission_denied].
    vm_compute. reflexivity. }
  assert (Hin : In (Received 0 (toggleProxy true)) (trace s))
    by (vm_compute; auto).
  assert (Hr : In r (responses 0 (trace s))) by (vm_compute; auto).
  split; [exact Hs|]. split; [exact Hin|]. split; [exact Hr|].
  exact (responses_follow_protocol s 0 (toggleProxy true) r Hs Hin Hr).
Defined.

(** ** What [getProxyStatus] reports *)

Lemma step_reporting a s s' id v :
  reporting id v s -> step a s = Some s' -> reporting id v s'.
Proof.
  intros (Hid & Hp & Hr) Hstep.
  destruct a as [| |request0|w|i e].
  1,2,4: match type of Hstep with
         | step ?a _ = _ =>
             destruct (platform_footprint a _ _ I Hstep)
               as (out & new & Htr & Hpe & Hnx & Hout & Hnew)
         end;
         unfold reporting; rewrite Htr, Hpe, Hnx, responses_app, (proj1 (Hout id)),
           app_nil_r;
         (split; [exact Hid|]); (split; [|exact Hr]);
         apply Forall_app; (split; [exact Hp|]);
         eapply Forall_weaken; [exact Hnew|]; cbn; intros t Ht Ho;
         rewrite Ht in Ho; discriminate.
  - destruct (message_footprint _ _ _ Hstep)
      as (out & new & Htr & Hpe & Hnx & Hout & Hnew).
    unfold reporting. rewrite Htr, Hpe, Hnx.
    change (Received (next_exchange s) request0 :: out)
      with ([Received (next_exchange s) request0] ++ out).
    rewrite !responses_app, (proj1 (Hout id)). cbn [responses]. rewrite !app_nil_r.
    split; [lia|]. split; [|exact Hr].
    apply Forall_app. split; [exact Hp|].
    eapply Forall_weaken; [exact Hnew|]. cbn. intros t [_ Ht] Ho.
    apply Ht in Ho. lia.
  - apply settle_inv in Hstep as (t & Ht & ->).
    unfold reporting.
    rewrite resume_trace, resume_pending, resume_next_exchange, responses_app.
    cbn [trace pending next_exchange set_pending].
    split; [exact Hid|].
    pose proof (owes_le_1 id t) as Hle.
    destruct (owes id t) as [|[|n]] eqn:Ho; [| |lia].
    + destruct (not_owing_resume id t e Ho) as [Hre Hta]. rewrite Hre, app_nil_r.
      split; [|exact Hr]. apply Forall_app. split.
      * apply Forall_delete. exact Hp.
      * eapply Forall_weaken; [exact Hta|]. cbn. intros t' Ht' Ho'.
        rewrite Ht' in Ho'. discriminate.
    + pose proof (Forall_lookup_1 _ _ _ _ Hp Ht Ho) as ->.
      footprint. cbn [responses app]. rewrite Nat.eqb_refl, app_nil_r. split.
      * apply Forall_delete. exact Hp.
      * apply Forall_app. split; [exact Hr|]. repeat constructor.
Qed.

Lemma run_reporting id v acts : forall s s',
  reporting id v s -> run acts s = Some s' -> reporting id v s'.
Proof.
  induction acts as [|a acts IH]; cbn; intros s s' Hinv Hrun.
  - injection Hrun as <-. assumption.
  - destruct (step a s) as [s1|] eqn:E; [|discriminate].
    eauto using step_reporting.
Qed.

Lemma step_trace_grows a s s' :
  step a s = Some s' -> exists suffix, trace s' = trace s ++ suffix.
Proof.
  intros Hstep. destruct a as [| |request0|w|i e].
  1,2,4: match type of Hstep with
         | step ?a _ = _ =>
             destruct (platform_footprint a _ _ I Hstep) as (out & _ & Htr & _)
         end; eauto.
  - destruct (message_footprint _ _ _ Hstep) as (out & _ & Htr & _). eauto.
  - apply settle_inv in Hstep as (t & _ & ->). rewrite resume_trace. cbn. eauto.
Qed.

Lemma run_trace_grows acts : forall s s',
  run acts s = Some s' -> exists suffix, trace s' = trace s ++ suffix.
Proof.
  induction acts as [|a acts IH]; cbn; intros s s' Hrun.
  - injection Hrun as <-. exists []. now rewrite app_nil_r.
  - destruct (step a s) as [s1|] eqn:E; [|discriminate].
    destruct (step_trace_grows _ _ _ E) as (x & Hx).
    destruct (IH _ _ Hrun) as (y & Hy).
    exists (x ++ y). rewrite Hy, Hx, app_assoc. reflexivity.
Qed.

Lemma status_starts_reporting s s1 :
  reachable s -> step (Message getProxyStatus) s = Some s1 ->
  reporting (next_exchange s) (store s) s1.
Proof.
  intros Hs Hmsg.
  destruct (fresh_exchange_owes s (reachable_exchanges_ok s Hs)) as [Hp Hr].
  injection Hmsg as <-. clear Hs. destruct s as [st rs bt bc pd nx tr].
  script. unfold reporting. cbn [next_exchange pending trace store] in *.
  rewrite !responses_app, Hr. cbn.
  split; [lia|]. split; [|constructor].
  apply Forall_app. split.
  - eapply Forall_weaken; [exact Hp|]. cbn. intros t Ht Ho.
    rewrite Ht in Ho. discriminate.
  - repeat constructor.
Qed.

(** X2: a [getProxyStatus] request is answered from the read made when it
    was received.  Whatever the worker does afterwards (other requests,
    toggles that change the flag, engine failures), any response on its
    exchange is [{enabled: v || false}] for the value [v] stored at that
    moment, and once nothing is pending that response has been sent, exactly
    once. *)
Theorem status_reports_flag_at_request s acts s' :
  reachable s ->
  run (Message getProxyStatus :: acts) s = Some s' ->
  Forall (fun r => r = ProxyStatusResponse (or_false (store s)))
         (responses (next_exchange s) (trace s'))
  /\ (quiescent s' ->
      responses (next_exchange s) (trace s')
      = [ProxyStatusResponse (or_false (store s))]).
Proof.
  intros Hs Hrun.
  pose proof (reachable_run _ _ _ Hs Hrun) as Hs'.
  cbn [run] in Hrun.
  destruct (step (Message getProxyStatus) s) as [s1|] eqn:Hmsg; [|discriminate].
  pose proof (status_starts_reporting _ _ Hs Hmsg) as H1.
  assert (Hin : In (Received (next_exchange s) getProxyStatus) (trace s')).
  { destruct (run_trace_grows _ _ _ Hrun) as (suffix & ->).
    destruct (message_footprint _ _ _ Hmsg) as (out & _ & -> & _).
    rewrite !in_app_iff. cbn. auto. }
  destruct (run_reporting _ _ _ _ _ H1 Hrun) as (_ & _ & Hall).
  split; [exact Hall|]. intros Hq.
  pose proof (received_is_the_request _ _ _ Hs' Hin) as Hreq.
  pose proof (balance s' (reachable_exchanges_ok s' Hs') (next_exchange s)) as Hb.
  rewrite Hreq, (quiescent_owes _ _ Hq) in Hb. cbn in Hb.
  destruct (responses (next_exchange s) (trace s')) as [|r [|r' l]];
    cbn in Hb; try lia.
  inversion Hall as [|? ? Hr0 _]; subst. reflexivity.
Qed.

Lemma status_reports_flag_at_request_witness :
  let s := boot (Some false) false in
  let acts := [Message (toggleProxy true); Settle 1 all_ok; Settle 1 all_ok;
               Settle 1 all_ok; Settle 1 all_ok; Settle 0 all_ok] in
  let s' := outcome (Message getProxyStatus :: acts) s in
  reachable s
  /\ run (Message getProxyStatus :: acts) s = Some s'
  /\ store s' = Some true
  /\ Forall (fun r => r = ProxyStatusResponse (or_false (store s)))
            (responses (next_exchange s) (trace s'))
  /\ (quiescent s' ->
      responses (next_exchange s) (trace s')
      = [ProxyStatusResponse (or_false (store s))]).
Proof.
  intros s acts s'.
  assert (Hrun : run (Message getProxyStatus :: acts) s = Some s')
    by (vm_compute; reflexivity).
  split; [apply reachable_boot|]. split; [exact Hrun|].
  split; [vm_compute; reflexivity|].
  exact (status_reports_flag_at_request s acts s' (reachable_boot _ _) Hrun).
Defined.

(** ** The badge *)

Lemma step_badge_ok a s s' : badge_ok s -> step a s = Some s' -> badge_ok s'.
Proof.
  unfold badge_ok. intros H Hstep.
  destruct a as [| |request0|w|i e].
  - injection Hstep as <-. destruct s as [st rs bt bc pd nx tr].
    script. case_same; script_step; auto.
  - injection Hstep as <-. destruct s as [st rs bt bc pd nx tr].
    script. exact H.
  - injection Hstep as <-. destruct s as [st rs bt bc pd nx tr].
    script.
    destruct (String.eqb (action request0) "getProxyStatus");
      [|destruct (String.eqb (action request0) "toggleProxy");
        [|destruct (String.eqb (action request0) "checkServerStatus")]];
      script_step; case_same; script_step; exact H.
  - injection Hstep as <-. destruct s as [st rs bt bc pd nx tr].
    script. case_same; script_step; exact H.
  - apply settle_inv in Hstep as (t & _ & ->).
    destruct s as [st rs bt bc pd nx tr].
    task_cases t e; script; auto.
Qed.

(** X3: in every state the worker can reach from a process start, the badge
    text is empty, ["ON"] or ["ERR"]; ["ON"] is always on green
    ([#10B981]) and shown only while the ruleset is enabled; ["ERR"] is
    always on red ([#EF4444]). *)
Theorem badge_states s :
  reachable s ->
  badge_text s = ""
  \/ (badge_text s = "ON" /\ badge_color s = Some "#10B981" /\ ruleset s = true)
  \/ (badge_text s = "ERR" /\ badge_color s = Some "#EF4444").
Proof.
  revert s. apply (reachable_invariant badge_ok).
  - intros p r. left. reflexivity.
  - exact step_badge_ok.
Qed.

Lemma badge_states_witness :
  let s := outcome (Message (toggleProxy true) :: repeat (Settle 0 all_ok) 4)
                   (boot (Some false) false) in
  reachable s
  /\ (badge_text s = ""
      \/ (badge_text s = "ON" /\ badge_color s = Some "#10B981" /\ ruleset s = true)
      \/ (badge_text s = "ERR" /\ badge_color s = Some "#EF4444")).
Proof.
  intros s.
  assert (Hs : reachable s).
  { exists (Some false), false,
      (Message (toggleProxy true) :: repeat (Settle 0 all_ok) 4).
    vm_compute. reflexivity. }
  split; [exact Hs|]. exact (badge_states s Hs).
Defined.

(** ** The two queries *)

(** X4: a message that is not a [toggleProxy] request, and the callbacks of
    [getProxyStatus] and [checkServerStatus], leave the stored flag, the
    ruleset and the badge as they were and make no engine call; such a
    message queues at most query callbacks. *)
Theorem queries_leave_state_alone :
  (forall s request,
      String.eqb (action request) "toggleProxy" = false ->
      exists s1 new,
        step (Message request) s = Some s1
        /\ store s1 = store s /\ ruleset s1 = ruleset s
        /\ badge_text s1 = badge_text s /\ badge_color s1 = badge_color s
        /\ engine_calls (trace s1) = engine_calls (trace s)
        /\ pending s1 = pending s ++ new
        /\ forallb query_task new = true)
  /\ (forall s i e t,
      pending s !! i = Some t ->
      query_task t = true ->
      exists s',
        step (Settle i e) s = Some s'
        /\ store s' = store s /\ ruleset s' = ruleset s
        /\ badge_text s' = badge_text s /\ badge_color s' = badge_color s
        /\ engine_calls (trace s') = engine_calls (trace s)
        /\ pending s' = delete i (pending s)).
Proof.
  split.
  - intros s request Hne. destruct s as [st rs bt bc pd nx tr].
    cbn [step]. script. rewrite Hne.
    destruct (String.eqb (action request) "getProxyStatus");
      [|destruct (String.eqb (action request) "checkServerStatus")];
      script_step; do 2 eexists; (split; [reflexivity|]); cbn;
      do 4 (split; [reflexivity|]);
      (split; [rewrite ?engine_calls_app; cbn; rewrite ?app_nil_r; reflexivity|]);
      (split; [first [reflexivity|symmetry; apply app_nil_r]|reflexivity]).
  - intros s i e t Hi Hq. cbn [step]. rewrite Hi.
    destruct s as [st rs bt bc pd nx tr].
    destruct t; try discriminate Hq; destruct e as [eng [code|message]];
      eexists; (split; [reflexivity|]); script;
      rewrite ?engine_calls_app; cbn; rewrite ?app_nil_r; repeat split.
Qed.

Lemma queries_leave_state_alone_witness :
  let s := boot (Some true) true in
  String.eqb (action getProxyStatus) "toggleProxy" = false
  /\ exists s1 new,
       step (Message getProxyStatus) s = Some s1
       /\ store s1 = store s /\ ruleset s1 = ruleset s
       /\ badge_text s1 = badge_text s /\ badge_color s1 = badge_color s
       /\ engine_calls (trace s1) = engine_calls (trace s)
       /\ pending s1 = pending s ++ new
       /\ forallb query_task new = true.
Proof.
  intros s. split; [reflexivity|].
  exact (proj1 queries_leave_state_alone s getProxyStatus eq_refl).
Defined.

(** ** Runs with a single pending task *)

Ltac script_goal :=
  cbv beta iota zeta delta
    [resume onChanged updateProxyRules_settled updateProxyRules
     fetch_settled resolved rejected onMessage onStartup onInstalled
     storage_sync_get storage_sync_set write_sync sendResponse
     setBadgeBackgroundColor setBadgeText console_error console_log
     open_exchange set_pending set_ruleset set_store spawn emit skip seq
     toggleProxy getProxyStatus checkServerStatus PROXY_SERVER
     store ruleset badge_text badge_color pending next_exchange trace];
  cbn [action enabled engine net truthy or_false newValue oldValue
       String.eqb Ascii.eqb Bool.eqb
       store ruleset badge_text badge_color pending next_exchange trace].

Lemma run_nothing_pending acts s s' :
  pending s = [] -> forallb is_settle acts = true ->
  run acts s = Some s' -> acts = [] /\ s' = s.
Proof.
  intros Hp Hset Hrun. destruct acts as [|a acts].
  - injection Hrun as <-. auto.
  - cbn in Hset. apply andb_prop in Hset as [Ha _].
    destruct a; try discriminate Ha.
    cbn in Hrun. rewrite Hp in Hrun. discriminate Hrun.
Qed.

Lemma run_single_pending t acts s s' :
  pending s = [t] -> forallb is_settle acts = true ->
  run acts s = Some s' -> quiescent s' ->
  exists e rest,
    acts = Settle 0 e :: rest
    /\ run rest (resume t e (set_pending [] s)) = Some s'.
Proof.
  intros Hp Hset Hrun Hq. destruct acts as [|a acts].
  - injection Hrun as <-. unfold quiescent in Hq. congruence.
  - cbn in Hset. apply andb_prop in Hset as [Ha _].
    destruct a as [| | | |i e]; try discriminate Ha.
    cbn [run step] in Hrun. rewrite Hp in Hrun.
    destruct i as [|i]; [|discriminate Hrun].
    cbn in Hrun. eauto.
Qed.

(** ** Installation *)

(** X5: the install event stores [false] and clears the badge text.  When
    the flag was not already [false] (a first install finds it absent), the
    change event makes the storage listener disable the ruleset: with the
    engine resolving, once nothing is pending the ruleset is disabled after
    exactly one engine call.  When the flag was already [false] the engine
    is not called at all and the ruleset stays as it was. *)
Theorem install_resets s acts s' :
  quiescent s ->
  forallb is_settle acts = true ->
  forallb engine_ok acts = true ->
  run (Installed :: acts) s = Some s' ->
  quiescent s' ->
  store s' = Some false
  /\ badge_text s' = ""
  /\ (if same_value (store s) (Some false)
      then ruleset s' = ruleset s
           /\ engine_calls (trace s') = engine_calls (trace s)
      else ruleset s' = false
           /\ engine_calls (trace s') = engine_calls (trace s) ++ [false]).
Proof.
  intros Hq Hset Hok Hrun Hq'.
  destruct s as [st rs bt bc pd nx tr]. unfold quiescent in Hq. cbn in Hq. subst pd.
  cbn [run step] in Hrun. cbn [store ruleset trace].
  destruct (same_value st (Some false)) eqn:Hsame.
  - assert (Hinst : pending (onInstalled (mkState st rs bt bc [] nx tr)) = []).
    { script_goal. rewrite Hsame. reflexivity. }
    destruct (run_nothing_pending _ _ _ Hinst Hset Hrun) as [_ ->].
    clear Hinst. script_goal. rewrite Hsame. script_goal.
    rewrite !engine_calls_app. cbn. rewrite !app_nil_r. auto.
  - assert (Hinst : pending (onInstalled (mkState st rs bt bc [] nx tr))
                    = [StorageChanged (Some (mkChange st (Some false))) "sync"]).
    { script_goal. rewrite Hsame. reflexivity. }
    destruct (run_single_pending _ _ _ _ Hinst Hset Hrun Hq')
      as (e1 & rest1 & -> & Hrun1).
    cbn in Hset, Hok. apply andb_prop in Hok as [_ Hok].
    match type of Hrun1 with run _ ?s1 = _ =>
      assert (H1 : pending s1 = [AwaitEngine (Some false) FromListener])
        by (rewrite resume_pending; reflexivity)
    end.
    destruct (run_single_pending _ _ _ _ H1 Hset Hrun1 Hq')
      as (e2 & rest2 & -> & Hrun2).
    cbn in Hset, Hok. apply andb_prop in Hok as [He2 Hok].
    destruct e2 as [[|m] nt]; [|discriminate He2].
    match type of Hrun2 with run _ ?s2 = _ =>
      assert (H2 : pending s2 = []) by (rewrite resume_pending; reflexivity)
    end.
    destruct (run_nothing_pending _ _ _ H2 Hset Hrun2) as [_ ->].
    clear Hinst H1 H2 Hrun1 Hrun. script_goal. rewrite Hsame. script_goal.
    rewrite !engine_calls_app. cbn. rewrite !app_nil_r. auto.
Qed.

Lemma install_resets_witness :
  let s := boot None true in
  let acts := [Settle 0 all_ok; Settle 0 all_ok] in
  let s' := outcome (Installed :: acts) s in
  quiescent s
  /\ run (Installed :: acts) s = Some s'
  /\ quiescent s'
  /\ store s' = Some false
  /\ badge_text s' = ""
  /\ (if same_value (store s) (Some false)
      then ruleset s' = ruleset s
           /\ engine_calls (trace s') = engine_calls (trace s)
      else ruleset s' = false
           /\ engine_calls (trace s') = engine_calls (trace s) ++ [false]).
Proof.
  intros s acts s'.
  assert (Hrun : run (Installed :: acts) s = Some s') by (vm_compute; reflexivity).
  assert (Hq' : quiescent s') by (vm_compute; reflexivity).
  split; [reflexivity|]. split; [exact Hrun|]. split; [exact Hq'|].
  exact (install_resets s acts s' eq_refl eq_refl eq_refl Hrun Hq').
Defined.

(** ** Startup when the engine resolves *)

(** X6: with nothing else pending and the engine resolving, the startup
    event brings the ruleset to the stored flag ([false] when the flag is
    absent) with exactly one engine call, shows the matching badge, leaves
    the flag as it was and leaves no rejection unhandled. *)
Theorem startup_converges s acts s' :
  quiescent s ->
  forallb is_settle acts = true ->
  forallb engine_ok acts = true ->
  run (Startup :: acts) s = Some s' ->
  quiescent s' ->
  ruleset s' = or_false (store s)
  /\ badge_shows (or_false (store s)) s'
  /\ store s' = store s
  /\ engine_calls (trace s') = engine_calls (trace s) ++ [or_false (store s)]
  /\ unhandled (trace s') = unhandled (trace s).
Proof.
  intros Hq Hset Hok Hrun Hq'.
  destruct s as [st rs bt bc pd nx tr]. unfold quiescent in Hq. cbn in Hq. subst pd.
  cbn [run step] in Hrun. cbn [store ruleset trace].
  assert (Hor : exists b, or_false st = b /\ truthy (Some b) = b)
    by (exists (or_false st); auto).
  destruct Hor as (b & Hb & _).
  assert (H0 : pending (onStartup (mkState st rs bt bc [] nx tr))
               = [StartupGetResumes st]) by reflexivity.
  destruct (run_single_pending _ _ _ _ H0 Hset Hrun Hq')
    as (e1 & rest1 & -> & Hrun1).
  cbn in Hset, Hok. apply andb_prop in Hok as [_ Hok].
  match type of Hrun1 with run _ ?s1 = _ =>
    assert (H1 : pending s1 = [AwaitEngine (Some b) FromStartup])
      by (rewrite <- Hb; reflexivity)
  end.
  destruct (run_single_pending _ _ _ _ H1 Hset Hrun1 Hq')
    as (e2 & rest2 & -> & Hrun2).
  cbn in Hset, Hok. apply andb_prop in Hok as [He2 Hok].
  destruct e2 as [[|m] nt]; [|discriminate He2].
  match type of Hrun2 with run _ ?s2 = _ =>
    assert (H2 : pending s2 = [])
      by (rewrite resume_pending; destruct b; reflexivity)
  end.
  destruct (run_nothing_pending _ _ _ H2 Hset Hrun2) as [_ ->].
  clear H0 H1 H2 Hrun1 Hrun. unfold badge_shows. rewrite Hb.
  destruct b; script_goal;
    rewrite !engine_calls_app, !unhandled_app; cbn; rewrite ?Hb, !app_nil_r; auto.
Qed.

Lemma startup_converges_witness :
  let s := boot (Some true) false in
  let acts := [Settle 0 all_ok; Settle 0 all_ok] in
  let s' := outcome (Startup :: acts) s in
  quiescent s
  /\ run (Startup :: acts) s = Some s'
  /\ quiescent s'
  /\ ruleset s' = or_false (store s)
  /\ badge_shows (or_false (store s)) s'
  /\ store s' = store s
  /\ engine_calls (trace s') = engine_calls (trace s) ++ [or_false (store s)]
  /\ unhandled (trace s') = unhandled (trace s).
Proof.
  intros s acts s'.
  assert (Hrun : run (Startup :: acts) s = Some s') by (vm_compute; reflexivity).
  assert (Hq' : quiescent s') by (vm_compute; reflexivity).
  split; [reflexivity|]. split; [exact Hrun|]. split; [exact Hq'|].
  exact (startup_converges s acts s' eq_refl eq_refl eq_refl Hrun Hq').
Defined.

(** ** Engine failures, whoever called *)

(** X7: whenever an engine call rejects, in the toggle handler, the storage
    listener or the startup listener alike, the failure is logged with
    [console.error], the badge becomes ["ERR"] on red, the ruleset and the
    stored flag are left as they were, and nothing is queued again (no
    retry).  Only the toggle handler handles the rejection; for the two
    other callers it is left unhandled. *)
Theorem engine_failure_is_logged_and_shown s i v caller e message :
  pending s !! i = Some (AwaitEngine v caller) ->
  engine e = EngineError message ->
  exists s' rest,
    step (Settle i e) s = Some s'
    /\ trace s' = trace s ++
         [LogError "Error updating proxy rules:" message;
          BadgeText "ERR"; BadgeColor "#EF4444"] ++ rest
    /\ badge_text s' = "ERR"
    /\ badge_color s' = Some "#EF4444"
    /\ ruleset s' = ruleset s
    /\ store s' = store s
    /\ pending s' = delete i (pending s)
    /\ unhandled rest = match caller with
                        | FromToggle _ _ => []
                        | FromListener | FromStartup => [message]
                        end.
Proof.
  intros Hi He. cbn [step]. rewrite Hi.
  destruct s as [st rs bt bc pd nx tr]. destruct e as [eng nt].
  cbn in He. subst eng.
  destruct caller as [| |id b]; do 2 eexists; (split; [reflexivity|]);
    script_goal; rewrite <- ?app_assoc; cbn [app];
    (split; [reflexivity|]); rewrite ?app_nil_r; repeat split; reflexivity.
Qed.

Lemma engine_failure_is_logged_and_shown_witness :
  let s := mkState (Some true) false "" None
             [AwaitEngine (Some true) FromStartup] 0
             [StorageGet (Some true); Log "Updating proxy rules: enabling proxy";
              EngineInvoke true] in
  pending s !! 0 = Some (AwaitEngine (Some true) FromStartup)
  /\ exists s' rest,
       step (Settle 0 permission_denied) s = Some s'
       /\ trace s' = trace s ++
            [LogError "Error updating proxy rules:" "PermissionDenied";
             BadgeText "ERR"; BadgeColor "#EF4444"] ++ rest
       /\ badge_text s' = "ERR"
       /\ badge_color s' = Some "#EF4444"
       /\ ruleset s' = ruleset s
       /\ store s' = store s
       /\ pending s' = delete 0 (pending s)
       /\ unhandled rest = ["PermissionDenied"].
Proof.
  intros s. split; [reflexivity|].
  exact (engine_failure_is_logged_and_shown s 0 (Some true) FromStartup
           permission_denied "PermissionDenied" eq_refl eq_refl).
Defined.

(** ** No task is ever queued again *)

Lemma step_weight a s s' :
  step a s = Some s' ->
  sum_list_with weight (pending s') + (if is_settle a then 1 else 0)
  <= sum_list_with weight (pending s) + (if is_settle a then 0 else 4).
Proof.
  intros Hstep. destruct a as [| |request0|w|i e]; cbn [is_settle].
  1-4: injection Hstep as <-; destruct s as [st rs bt bc pd nx tr]; script_goal.
  - case_same; script_goal; rewrite ?sum_list_with_app; cbn; lia.
  - rewrite ?sum_list_with_app; cbn; lia.
  - destruct (String.eqb (action request0) "getProxyStatus");
      [|destruct (String.eqb (action request0) "toggleProxy");
        [|destruct (String.eqb (action request0) "checkServerStatus")]];
      script_goal; case_same; script_goal;
      rewrite ?sum_list_with_app; cbn; lia.
  - case_same; script_goal; rewrite ?sum_list_with_app; cbn; lia.
  - apply settle_lighter in Hstep. lia.
Qed.

(** X8: the script never retries and never re-queues: every event (install,
    startup, message, foreign write) leaves at most four resumptions to
    come, and every resumption uses one up.  So in any run the number of
    resumptions is bounded by what was pending at the start plus four per
    event. *)
Theorem resumptions_are_bounded acts : forall s s',
  run acts s = Some s' ->
  length (List.filter is_settle acts) + sum_list_with weight (pending s')
  <= sum_list_with weight (pending s)
     + 4 * length (List.filter (fun a => negb (is_settle a)) acts).
Proof.
  induction acts as [|a acts IH]; cbn [run]; intros s s' Hrun.
  - injection Hrun as <-. cbn. lia.
  - destruct (step a s) as [s1|] eqn:E; [|discriminate].
    specialize (IH _ _ Hrun). apply step_weight in E.
    cbn [List.filter]. destruct (is_settle a); cbn [negb length] in *; lia.
Qed.

Lemma resumptions_are_bounded_witness :
  let s := boot (Some false) false in
  let acts := Message (toggleProxy true) :: repeat (Settle 0 permission_denied) 4 in
  let s' := outcome acts s in
  run acts s = Some s'
  /\ length (List.filter is_settle acts) + sum_list_with weight (pending s')
     <= sum_list_with weight (pending s)
        + 4 * length (List.filter (fun a => negb (is_settle a)) acts).
Proof.
  intros s acts s'.
  assert (Hrun : run acts s = Some s') by (vm_compute; reflexivity).
  split; [exact Hrun|].
  exact (resumptions_are_bounded acts s s' Hrun).
Defined.

(** * Properties of the popup *)

Ltac popup :=
  cbv beta iota zeta delta
    [Popup.toggleProxy Popup.toggleProxy_timeout Popup.toggleProxy_answered
     Popup.toggleProxy_caught Popup.checkServerStatus
     Popup.checkServerStatus_answered Popup.checkServerStatus_fetched
     Popup.loadProxyState Popup.loadProxyState_resolved
     Popup.loadProxyState_rejected Popup.mount
     Popup.setIsEnabled Popup.setIsLoading Popup.setServerStatus
     Popup.setDebugInfo Popup.say Popup.call Popup.andThen
     Popup.toggle_disabled Popup.adopted
     Popup.isEnabled Popup.isLoading Popup.serverStatus Popup.debugInfo
     Popup.console Popup.has_runtime Popup.has_storage fst snd].

(** X9: a click where [chrome.runtime] exists sets a 5000 ms timer, sends
    [toggleProxy] with the negation of the displayed value, and disables the
    control.  When the answer comes, whether or not the timer fired in
    between (the timeout cancels nothing), loading is cleared and the
    displayed value becomes the requested one exactly when there is no
    [lastError] and the response says success; otherwise it stays as it
    was.  The server status is never touched. *)
Theorem popup_toggle_outcome host v lastError response (timed_out : bool) :
  Popup.has_runtime host = true ->
  let p1 := Popup.toggleProxy host (v, []) in
  let p2 := if timed_out then Popup.toggleProxy_timeout p1 else p1 in
  let p3 := Popup.toggleProxy_answered (negb (Popup.isEnabled v))
              lastError response p2 in
  snd p1 = [Popup.SetTimeout 5000;
            Popup.SendMessage (Popup.toggle_request (negb (Popup.isEnabled v)))]
  /\ Popup.toggle_disabled (fst p1) = true
  /\ Popup.isEnabled (fst p2) = Popup.isEnabled v
  /\ Popup.isLoading (fst p3) = false
  /\ Popup.isEnabled (fst p3)
     = (if Popup.adopted lastError response then negb (Popup.isEnabled v)
        else Popup.isEnabled v)
  /\ Popup.serverStatus (fst p3) = Popup.serverStatus v.
Proof.
  intros Hrt. destruct host as [hs hr]. cbn in Hrt. subst hr.
  destruct v as [en ld st dbg con].
  destruct timed_out, lastError as [m|], response as [r|];
    try destruct (Popup.success_of r) eqn:Hr;
    popup; cbn [Popup.succeeded]; rewrite ?Hr; popup; repeat split.
Qed.

Lemma popup_toggle_outcome_witness :
  let host := Popup.mkHost true true in
  let v := Popup.mkView false false "online" "" [] in
  let response := Some (ToggleResponse true (Some true) None) in
  let p1 := Popup.toggleProxy host (v, []) in
  let p2 := Popup.toggleProxy_timeout p1 in
  let p3 := Popup.toggleProxy_answered true None response p2 in
  Popup.has_runtime host = true
  /\ snd p1 = [Popup.SetTimeout 5000;
               Popup.SendMessage (Popup.toggle_request true)]
  /\ Popup.toggle_disabled (fst p1) = true
  /\ Popup.isEnabled (fst p2) = false
  /\ Popup.isLoading (fst p3) = false
  /\ Popup.isEnabled (fst p3) = true
  /\ Popup.serverStatus (fst p3) = "online".
Proof.
  intros host v response p1 p2 p3. split; [reflexivity|].
  exact (popup_toggle_outcome host v None response true eq_refl).
Defined.

(** X10: popup and worker together, when the engine resolves.  A click is
    sent to a worker with nothing pending; every engine call resolves.  Once nothing is pending the worker has sent
    one response, and after the popup's callback the displayed value equals
    the stored flag and the state of the ruleset, the badge shows it, and
    loading is cleared. *)
Theorem toggle_round_trip_in_sync host v s request acts s' :
  Popup.has_runtime host = true ->
  reachable s ->
  quiescent s ->
  In (Popup.SendMessage request) (snd (Popup.toggleProxy host (v, []))) ->
  forallb is_settle acts = true ->
  forallb engine_ok acts = true ->
  run (Message request :: acts) s = Some s' ->
  quiescent s' ->
  exists r,
    responses (next_exchange s) (trace s') = [r]
    /\ let v' := fst (Popup.toggleProxy_answered (negb (Popup.isEnabled v)) None
                        (Some r) (Popup.toggleProxy host (v, []))) in
       Popup.isEnabled v' = negb (Popup.isEnabled v)
       /\ Popup.isEnabled v' = or_false (store s')
       /\ Popup.isEnabled v' = ruleset s'
       /\ badge_shows (Popup.isEnabled v') s'
       /\ Popup.isLoading v' = false.
Proof.
  intros Hrt Hs Hq Hin Hset Hok Hrun Hq'.
  destruct host as [hs hr]. cbn in Hrt. subst hr.
  destruct v as [en ld st dbg con]. cbn [Popup.isEnabled] in *.
  assert (Hreq : request = toggleProxy (negb en)).
  { revert Hin. popup. cbn. intros [H|[H|[]]]; [discriminate H|].
    injection H as <-. reflexivity. }
  subst request.
  destruct (toggle_alone_succeeds s (negb en) acts s' Hs Hq Hset Hok Hrun Hq')
    as (Hr & Hb & Hrule & Hst & _).
  eexists. split; [exact Hr|].
  popup. cbn [Popup.succeeded Popup.success_of]. popup.
  rewrite Hst, Hrule. repeat split; auto. destruct en; reflexivity.
Qed.

Lemma toggle_round_trip_in_sync_witness :
  let host := Popup.mkHost true true in
  let v := Popup.mkView false false "online" "" [] in
  let s := boot (Some false) false in
  let acts := repeat (Settle 0 all_ok) 4 in
  let s' := outcome (Message (toggleProxy true) :: acts) s in
  reachable s /\ quiescent s
  /\ In (Popup.SendMessage (toggleProxy true)) (snd (Popup.toggleProxy host (v, [])))
  /\ run (Message (toggleProxy true) :: acts) s = Some s'
  /\ quiescent s'
  /\ exists r,
       responses 0 (trace s') = [r]
       /\ let v' := fst (Popup.toggleProxy_answered true None
                           (Some r) (Popup.toggleProxy host (v, []))) in
          Popup.isEnabled v' = true
          /\ Popup.isEnabled v' = or_false (store s')
          /\ Popup.isEnabled v' = ruleset s'
          /\ badge_shows (Popup.isEnabled v') s'
          /\ Popup.isLoading v' = false.
Proof.
  intros host v s acts s'.
  assert (Hin : In (Popup.SendMessage (toggleProxy true))
                   (snd (Popup.toggleProxy host (v, []))))
    by (vm_compute; auto).
  assert (Hrun : run (Message (toggleProxy true) :: acts) s = Some s')
    by (vm_compute; reflexivity).
  assert (Hq' : quiescent s') by (vm_compute; reflexivity).
  split; [apply reachable_boot|]. split; [reflexivity|].
  split; [exact Hin|]. split; [exact Hrun|]. split; [exact Hq'|].
  exact (toggle_round_trip_in_sync host v s (toggleProxy true) acts s'
           eq_refl (reachable_boot _ _) eq_refl Hin eq_refl eq_refl
           Hrun Hq').
Defined.

(** X11: popup and worker together, when the toggle fails.  A click is sent
    to the worker, only resumptions follow, and it is answered without
    success.  The
    popup keeps the value it displayed, while the worker has stored the
    requested one: the two now disagree, and a popup opened afterwards, which
    reads the flag from storage, shows the requested value although the
    toggle failed. *)
Theorem failed_toggle_desynchronises_popup host v s request acts s' r :
  Popup.has_runtime host = true ->
  In (Popup.SendMessage request) (snd (Popup.toggleProxy host (v, []))) ->
  forallb is_settle acts = true ->
  run (Message request :: acts) s = Some s' ->
  In r (responses (next_exchange s) (trace s')) ->
  Popup.success_of r = false ->
  let v' := fst (Popup.toggleProxy_answered (negb (Popup.isEnabled v)) None
                   (Some r) (Popup.toggleProxy host (v, []))) in
  Popup.isEnabled v' = Popup.isEnabled v
  /\ Popup.isLoading v' = false
  /\ store s' = Some (negb (Popup.isEnabled v))
  /\ or_false (store s') <> Popup.isEnabled v'
  /\ Popup.isEnabled
       (fst (Popup.loadProxyState_resolved (store s') (Popup.initial, [])))
     = negb (Popup.isEnabled v).
Proof.
  intros Hrt Hin Hset Hrun _ Hfail.
  destruct host as [hs hr]. cbn in Hrt. subst hr.
  destruct v as [en ld st dbg con]. cbn [Popup.isEnabled] in *.
  assert (Hreq : request = toggleProxy (negb en)).
  { revert Hin. popup. cbn. intros [H|[H|[]]]; [discriminate H|].
    injection H as <-. reflexivity. }
  subst request. cbn [run] in Hrun.
  destruct (step (Message (toggleProxy (negb en))) s) as [s0|] eqn:Hmsg;
    [|discriminate].
  assert (Hst : store s' = Some (negb en)).
  { rewrite (settles_store _ _ _ Hset Hrun).
    apply (toggle_step_fields _ _ _ Hmsg). }
  rewrite Hst. clear Hmsg Hrun.
  popup. cbn [Popup.succeeded]. rewrite Hfail. popup.
  cbn. destruct en; cbn; repeat split; auto; discriminate.
Qed.

Lemma failed_toggle_desynchronises_popup_witness :
  let host := Popup.mkHost true true in
  let v := Popup.mkView false false "online" "" [] in
  let s := boot (Some false) false in
  let acts := repeat (Settle 0 permission_denied) 4 in
  let s' := outcome (Message (toggleProxy true) :: acts) s in
  let r := ToggleResponse false None (Some "PermissionDenied") in
  let v' := fst (Popup.toggleProxy_answered true None
                   (Some r) (Popup.toggleProxy host (v, []))) in
  run (Message (toggleProxy true) :: acts) s = Some s'
  /\ In r (responses 0 (trace s'))
  /\ Popup.isEnabled v' = false
  /\ Popup.isLoading v' = false
  /\ store s' = Some true
  /\ or_false (store s') <> Popup.isEnabled v'
  /\ Popup.isEnabled
       (fst (Popup.loadProxyState_resolved (store s') (Popup.initial, [])))
     = true.
Proof.
  intros host v s acts s' r v'.
  assert (Hin : In (Popup.SendMessage (toggleProxy true))
                   (snd (Popup.toggleProxy host (v, []))))
    by (vm_compute; auto).
  assert (Hrun : run (Message (toggleProxy true) :: acts) s = Some s')
    by (vm_compute; reflexivity).
  assert (Hr : In r (responses 0 (trace s'))) by (vm_compute; auto).
  split; [exact Hrun|]. split; [exact Hr|].
  exact (failed_toggle_desynchronises_popup host v s (toggleProxy true) acts s' r
           eq_refl Hin eq_refl Hrun Hr eq_refl).
Defined.

(** X12: the server status the popup ends up showing.  Through the worker
    or, without [chrome.runtime], by its own fetch, the popup shows
    ["online"] exactly when the fetch got a response with a status from 200
    to 299, and ["offline"] in every other case; the two paths always
    agree. *)
Theorem popup_server_status s i id e v :
  pending s !! i = Some (AwaitFetch id) ->
  exists s' r,
    step (Settle i e) s = Some s'
    /\ trace s' = trace s ++ [Responded id r]
    /\ let via_worker :=
         Popup.serverStatus (fst (Popup.checkServerStatus_answered (Some r) (v, []))) in
       let direct :=
         Popup.serverStatus (fst (Popup.checkServerStatus_fetched (net e) (v, []))) in
       via_worker = direct
       /\ (direct = "online" \/ direct = "offline")
       /\ (direct = "online" <->
           exists code, net e = FetchResponse code /\ (200 <= code <= 299)%Z).
Proof.
  intros Hi. cbn [step]. rewrite Hi.
  destruct s as [st rs bt bc pd nx tr]. destruct v as [en ld sv dbg con].
  destruct e as [eng [code|message]].
  - do 2 eexists. split; [reflexivity|]. script_goal.
    split; [reflexivity|]. popup. cbn [Popup.online_of].
    destruct (response_ok code) eqn:Hok; popup; cbn [net];
      (split; [reflexivity|]); (split; [auto|]); unfold response_ok in Hok; split.
    + intros _. exists code. split; [reflexivity|lia].
    + reflexivity.
    + discriminate.
    + intros (code' & [= <-] & H). lia.
  - do 2 eexists. split; [reflexivity|]. script_goal.
    split; [reflexivity|]. popup. cbn [Popup.online_of net]. popup.
    split; [reflexivity|]. split; [auto|]. split; [discriminate|].
    intros (code' & [=] & _).
Qed.

Lemma popup_server_status_witness :
  let s := mkState (Some false) false "" None [AwaitFetch 0] 1
             [Received 0 checkServerStatus; Fetch "http://localhost:8080/pqc-info"] in
  let e := mkEnv EngineOk (FetchResponse 404) in
  let v := Popup.initial in
  pending s !! 0 = Some (AwaitFetch 0)
  /\ exists s' r,
       step (Settle 0 e) s = Some s'
       /\ trace s' = trace s ++ [Responded 0 r]
       /\ let via_worker :=
            Popup.serverStatus (fst (Popup.checkServerStatus_answered (Some r) (v, []))) in
          let direct :=
            Popup.serverStatus (fst (Popup.checkServerStatus_fetched (net e) (v, []))) in
          via_worker = direct
          /\ (direct = "online" \/ direct = "offline")
          /\ (direct = "online" <->
              exists code, net e = FetchResponse code /\ (200 <= code <= 299)%Z).
Proof.
  intros s e v. split; [reflexivity|].
  exact (popup_server_status s 0 0 e v eq_refl).
Defined.

(** X13: the popup from first render.  The control is disabled at first
    render and, where [chrome.storage] exists, stays so after mounting until
    the storage read settles.  When the read resolves the popup shows the
    stored flag ([false] when absent); when it rejects, and where there is no
    [chrome.storage], it shows [false]; in every case loading is then
    cleared.  Mounting asks the host for the stored flag and for a server
    check, in that order. *)
Theorem popup_load_outcome host (result : Stored + string) :
  let p1 := Popup.mount host (Popup.initial, []) in
  let p2 := match result with
            | inl stored => Popup.loadProxyState_resolved stored p1
            | inr message => Popup.loadProxyState_rejected message p1
            end in
  Popup.toggle_disabled Popup.initial = true
  /\ (if Popup.has_storage host
      then Popup.toggle_disabled (fst p1) = true
           /\ snd p1 = [Popup.StorageRead;
                        if Popup.has_runtime host
                        then Popup.SendMessage Popup.status_request
                        else Popup.FetchUrl "http://localhost:8080/pqc-info"]
           /\ Popup.isLoading (fst p2) = false
           /\ Popup.isEnabled (fst p2)
              = match result with
                | inl stored => or_false stored
                | inr _ => false
                end
      else Popup.isLoading (fst p1) = false
           /\ Popup.isEnabled (fst p1) = false
           /\ ~ In Popup.StorageRead (snd p1)).
Proof.
  destruct host as [[|] [|]], result as [stored|message];
    popup; cbn; repeat split; auto; intros [H|[]]; discriminate H.
Qed.
